(** * dox: a shallow embedding of the HTML post-processing fixers

    The development follows [dox.py]: the Python built-ins the fixers
    rely on, the document tree, the nine fixers as far as their
    contracts are stated, and [postprocess_file], which runs a fixer
    sequence over one document.

    Text is a Rocq [string]; a character stands for a code point below
    256.  Python objects that are mutated in place are threaded through
    explicitly, and an operation that can raise returns a [result]. *)

From Stdlib Require Import ZArith NArith String Ascii List Bool Lia.
From stdpp Require Import base option gmap strings.
From Equations Require Import Equations.
Import ListNotations.

Local Open Scope string_scope.
Local Open Scope Z_scope.
Set Warnings "-register-all,-clear-no-such-hyp".

(** ** Exceptions and results *)

Inductive exn : Type :=
| KeyError (key : string)
| IndexError
| TypeError
| ValueError
| NameError (name : string)
| AttributeError
| AssertionError
| OSError.

Inductive result (A : Type) : Type :=
| Ok (a : A)
| Raise (e : exn).
Arguments Ok {A} a.
Arguments Raise {A} e.

Definition rbind {A B} (r : result A) (k : A -> result B) : result B :=
  match r with
  | Ok a => k a
  | Raise e => Raise e
  end.

#[global] Instance result_ret : MRet result := fun A a => Ok a.
#[global] Instance result_bind : MBind result := fun A B k r => rbind r k.
#[global] Instance result_fmap : FMap result := fun A B f r => rbind r (fun a => Ok (f a)).

Definition is_ok {A} (r : result A) : bool :=
  match r with Ok _ => true | Raise _ => false end.

(** A loop that builds a list and stops at the first exception. *)
Definition traverse {A B} (f : A -> result B) : list A -> result (list B) :=
  fix go (l : list A) : result (list B) :=
    match l with
    | [] => Ok []
    | x :: r => y ← f x; ys ← go r; Ok (y :: ys)
    end.

Lemma traverse_cons {A B} (f : A -> result B) x l :
  traverse f (x :: l) = (y ← f x; ys ← traverse f l; Ok (y :: ys)).
Proof. reflexivity. Qed.

Lemma bind_ok {A B} (r : result A) (k : A -> result B) b :
  (r ≫= k) = Ok b -> exists a, r = Ok a /\ k a = Ok b.
Proof. destruct r as [a|e]; [eauto|discriminate]. Qed.

(** ** Python built-ins on text *)

Module Py.

Definition ord (c : ascii) : nat := nat_of_ascii c.

Definition between (lo hi n : nat) : bool := (Nat.leb lo n && Nat.leb n hi)%bool.

(** [str.isspace] on one character, also the class [\s] of [re] on
    text patterns. *)
Definition isspace (c : ascii) : bool :=
  let n := ord c in
  (between 9 13 n || between 28 32 n || Nat.eqb n 133 || Nat.eqb n 160)%bool.

(** [str.lower] on one character. *)
Definition lower_char (c : ascii) : ascii :=
  let n := ord c in
  if (between 65 90 n || (between 192 222 n && negb (Nat.eqb n 215)))%bool
  then ascii_of_nat (n + 32) else c.

Fixpoint lower (s : string) : string :=
  match s with
  | EmptyString => EmptyString
  | String c r => String (lower_char c) (lower r)
  end.

Fixpoint lstrip (s : string) : string :=
  match s with
  | EmptyString => EmptyString
  | String c r => if isspace c then lstrip r else s
  end.

Fixpoint rstrip (s : string) : string :=
  match s with
  | EmptyString => EmptyString
  | String c r =>
      match rstrip r with
      | EmptyString => if isspace c then EmptyString else String c EmptyString
      | r' => String c r'
      end
  end.

(** [str.strip()] *)
Definition strip (s : string) : string := rstrip (lstrip s).

(** [str.split()] with no separator: the maximal runs of characters
    that are not whitespace. *)
Fixpoint split_ws_aux (cur : string) (s : string) : list string :=
  match s with
  | EmptyString => match cur with EmptyString => [] | _ => [cur] end
  | String c r =>
      if isspace c
      then match cur with
           | EmptyString => split_ws_aux EmptyString r
           | _ => cur :: split_ws_aux EmptyString r
           end
      else split_ws_aux (cur ++ String c EmptyString) r
  end.

Definition split (s : string) : list string := split_ws_aux EmptyString s.

(** [str.startswith] *)
Definition startswith (s p : string) : bool := String.prefix p s.

(** *** [int(text, base)]

    The text is stripped of whitespace, then read as an optional sign,
    for base 16 an optional [0x] or [0X], and digits that single
    underscores may separate.  Below 127 only the six C whitespace
    characters are stripped; the whitespace above is turned into a
    blank first. *)

Definition int_isspace (c : ascii) : bool :=
  let n := ord c in
  (between 9 13 n || Nat.eqb n 32 || Nat.eqb n 133 || Nat.eqb n 160)%bool.

Fixpoint int_lstrip (s : string) : string :=
  match s with
  | EmptyString => EmptyString
  | String c r => if int_isspace c then int_lstrip r else s
  end.

Fixpoint int_rstrip (s : string) : string :=
  match s with
  | EmptyString => EmptyString
  | String c r =>
      match int_rstrip r with
      | EmptyString => if int_isspace c then EmptyString else String c EmptyString
      | r' => String c r'
      end
  end.

Definition digit_value (c : ascii) : option Z :=
  let n := ord c in
  if between 48 57 n then Some (Z.of_nat n - 48)
  else if between 97 122 n then Some (Z.of_nat n - 87)
  else if between 65 90 n then Some (Z.of_nat n - 55)
  else None.

Definition is_underscore (c : ascii) : bool := Nat.eqb (ord c) 95.

(** The digit loop: [prev] tells that the previous character was an
    underscore, [seen] that a digit was read. *)
Fixpoint int_digits (base : Z) (prev seen : bool) (acc : Z) (s : string) : option Z :=
  match s with
  | EmptyString => if (prev || negb seen)%bool then None else Some acc
  | String c r =>
      if is_underscore c
      then (if prev then None else int_digits base true seen acc r)
      else match digit_value c with
           | Some d => if d <? base then int_digits base false true (acc * base + d) r
                       else None
           | None => None
           end
  end.

Definition int_prefix (base : Z) (s : string) : string :=
  match s with
  | String c0 (String c1 r) =>
      if ((base =? 16) && Nat.eqb (ord c0) 48
          && (Nat.eqb (ord c1) 120 || Nat.eqb (ord c1) 88))%bool
      then match r with
           | String u r' => if is_underscore u then r' else r
           | EmptyString => r
           end
      else s
  | _ => s
  end.

Definition int_unsigned (base : Z) (s : string) : option Z :=
  match int_prefix base s with
  | EmptyString => None
  | String c r as body =>
      if is_underscore c then None else int_digits base false false 0 body
  end.

(** [int(s, base)]; [None] stands for [ValueError]. *)
Definition int (s : string) (base : Z) : option Z :=
  match int_rstrip (int_lstrip s) with
  | String c r as t =>
      if Nat.eqb (ord c) 43 then int_unsigned base r
      else if Nat.eqb (ord c) 45 then Z.opp <$> int_unsigned base r
      else int_unsigned base t
  | EmptyString => None
  end.

(** *** [format(n, 'X')] *)

Definition hex_digit (d : N) : ascii :=
  if (d <? 10)%N then ascii_of_N (48 + d) else ascii_of_N (55 + d).

Fixpoint hex_upper (fuel : nat) (n : N) (acc : string) : string :=
  let acc' := String (hex_digit (n mod 16)%N) acc in
  match fuel with
  | O => acc'
  | S fuel' => if (n / 16 =? 0)%N then acc' else hex_upper fuel' (n / 16)%N acc'
  end.

Definition format_X (z : Z) : string :=
  let n := Z.to_N (Z.abs z) in
  let body := hex_upper (N.to_nat (N.log2 n)) n EmptyString in
  if z <? 0 then String "-" body else body.

End Py.

(** ** JSON values

    What [json.loads] returns for the emoji table: an object is a
    Python dictionary, given by its items in order; numbers are
    integers. *)

Inductive json : Type :=
| JNull
| JBool (b : bool)
| JNum (z : Z)
| JStr (s : string)
| JList (l : list json)
| JObject (items : list (string * json)).

(** ** CustomTagsFix: the bracket shortcodes *)

Module CustomTagsFix.

(** What a handler appends to the accumulator [out]: a class command
    with its class list, or a name command with its name. *)
Inductive event : Type :=
| ClassEvent (tag_name : string) (classes : list string)
| NameEvent (tag_name : string) (tag_content : string).

Definition is_hex (c : ascii) : bool :=
  match Py.digit_value c with Some d => d <? 16 | None => false end.

Definition is_newline (c : ascii) : bool := Nat.eqb (Py.ord c) 10.

Fixpoint no_newline (s : string) : bool :=
  match s with
  | EmptyString => true
  | String c r => (negb (is_newline c) && no_newline r)%bool
  end.

(** [p] is a prefix of [s], letter case ignored; gives the rest. *)
Fixpoint strip_prefix_ci (p s : string) : option string :=
  match p, s with
  | EmptyString, _ => Some s
  | String a p', String b s' =>
      if Ascii.eqb (Py.lower_char a) (Py.lower_char b) then strip_prefix_ci p' s' else None
  | _, EmptyString => None
  end.

Fixpoint span_hex (s : string) : string * string :=
  match s with
  | String c r => if is_hex c then let '(h, t) := span_hex r in (String c h, t)
                  else (EmptyString, s)
  | EmptyString => (EmptyString, EmptyString)
  end.

(** The tail [unicode/([0-9a-fA-F]+)[.]png] read at the head of [s]. *)
Definition emoji_uri_here (s : string) : option string :=
  match strip_prefix_ci "unicode/" s with
  | Some r =>
      match span_hex r with
      | (EmptyString, _) => None
      | (h, t) => match strip_prefix_ci ".png" t with Some _ => Some h | None => None end
      end
  | None => None
  end.

(** The greedy [.+] in front makes the last position that fits the one
    that matches. *)
Fixpoint emoji_uri_last (s : string) : option string :=
  match s with
  | EmptyString => None
  | String _ r =>
      match emoji_uri_last r with
      | Some h => Some h
      | None => emoji_uri_here r
      end
  end.

(** [__emoji_uri.fullmatch(uri)], giving group 1:
    [.+unicode/([0-9a-fA-F]+)[.]png.*] with [re.I]. *)
Definition emoji_uri (uri : string) : option string :=
  if no_newline uri then emoji_uri_last uri else None.

(** The class attributes [__emojis] and [__emoji_codepoints]; [None]
    is Python's [None].  The dictionary is read by key only, and the
    set only asked whether it holds an integer: they are kept as a
    finite map and as the set of the integers that equal an element. *)
Record cls_state : Type := {
  cls_emojis : option (gmap string json);
  cls_emoji_codepoints : option (gset Z)
}.

(** The first loop of the table processing: the keys whose URI names a
    code point get the pair [[cp, uri]].  [raw] lists the items of the
    loaded dictionary in its order; the second component lists the code
    points in the order they are added to the set.  A value that is no
    text cannot be matched. *)
Definition entry_step (acc : result (gmap string json * list Z)) (kv : string * json)
  : result (gmap string json * list Z) :=
  '(emojis, added) ← acc;
  match kv.2 with
  | JStr uri =>
      match emoji_uri uri with
      | Some h =>
          match Py.int h 16 with
          | Some cp => Ok (<[kv.1 := JList [JNum cp; JStr uri]]> emojis, (added ++ [cp])%list)
          | None => Raise ValueError
          end
      | None => Ok (emojis, added)
      end
  | _ => Raise TypeError
  end.

Definition process_entries (raw : list (string * json))
  : result (gmap string json * list Z) :=
  foldl entry_step (Ok (∅, [])) raw.

Definition aliases : list (string * string) :=
  [("sundae", "ice_cream"); ("info", "information_source")].

Definition add_aliases (emojis : gmap string json) : result (gmap string json) :=
  foldl (fun acc ak =>
           e ← acc;
           match e !! ak.2 with
           | Some v => Ok (<[ak.1 := v]> e)
           | None => Raise (KeyError ak.2)
           end)
        (Ok emojis) aliases.

(** Membership of an integer in a set filled from JSON values goes by
    Python equality: [True] is 1 and [False] is 0, and no text or
    [None] equals an integer.  A list or a dictionary cannot be
    hashed. *)
Definition codepoints_of (l : list json) : result (gset Z) :=
  foldl (fun acc v =>
           cps ← acc;
           match v with
           | JNum z => Ok ({[z]} ∪ cps)
           | JBool b => Ok ({[if b then 1 else 0]} ∪ cps)
           | JStr _ | JNull => Ok cps
           | JList _ | JObject _ => Raise TypeError
           end)
        (Ok ∅) l.

(** [for cp in value]: a list gives its elements, a text its
    characters, each a text of its own, a dictionary its keys; the
    other values cannot be iterated. *)
Definition iterate (v : json) : result (list json) :=
  match v with
  | JList l => Ok l
  | JStr s => Ok (map (fun c => JStr (String c EmptyString)) (list_ascii_of_string s))
  | JObject items => Ok (map (fun kv => JStr kv.1) items)
  | JNull | JBool _ | JNum _ => Raise TypeError
  end.

Section Emojis.

(** The order in which a set lists its elements is that of CPython's
    hash table; it is taken as it comes: [set_order added] is the
    listing of the set after the insertions [added]. *)
Variable set_order : list Z -> list Z.

(** The table built from the downloaded one. *)
Definition process_emojis (raw : list (string * json)) : result (gmap string json * gset Z) :=
  '(emojis, added) ← process_entries raw;
  emojis ← add_aliases emojis;
  let emojis := <["__codepoints" := JList (JNum <$> set_order added)]> emojis in
  let emojis := <["__processed" := JBool true]> emojis in
  Ok (emojis, list_to_set added).

(** The lazy loading at the head of the emoji branch; [file] lists the
    items of the dictionary that reading [emojis_v2.json] (or the
    download) gives.  Writing the processed table back to that file is
    left out, and so is the state a failed load leaves behind. *)
Definition load_table (file : list (string * json)) (st : cls_state) : result cls_state :=
  match cls_emojis st with
  | Some _ => Ok st
  | None =>
      let loaded : gmap string json := list_to_map file in
      match loaded !! "__processed" with
      | Some _ => Ok {| cls_emojis := Some loaded;
                        cls_emoji_codepoints := cls_emoji_codepoints st |}
      | None =>
          '(e, cps) ← process_emojis file;
          Ok {| cls_emojis := Some e; cls_emoji_codepoints := Some cps |}
      end
  end.

Definition load_codepoints (st : cls_state) : result (gmap string json * gset Z * cls_state) :=
  match cls_emojis st with
  | None => Raise TypeError
  | Some e =>
      match cls_emoji_codepoints st with
      | Some cps => Ok (e, cps, st)
      | None =>
          match e !! "__codepoints" with
          | None => Raise (KeyError "__codepoints")
          | Some v =>
              l ← iterate v;
              cps ← codepoints_of l;
              Ok (e, cps, {| cls_emojis := Some e; cls_emoji_codepoints := Some cps |})
          end
      end
  end.

Definition load_emojis (file : list (string * json)) (st : cls_state)
  : result (gmap string json * gset Z * cls_state) :=
  st1 ← load_table file st;
  load_codepoints st1.

End Emojis.

(** [value[0]] and [f'{value:X}'] on a JSON value. *)
Definition subscript0 (v : json) : result json :=
  match v with
  | JList (x :: _) => Ok x
  | JStr (String c _) => Ok (JStr (String c EmptyString))
  | JList [] | JStr EmptyString => Raise IndexError
  | JObject _ => Raise (KeyError "0")
  | JNull | JBool _ | JNum _ => Raise TypeError
  end.

Definition json_format_X (v : json) : result string :=
  match v with
  | JNum z => Ok (Py.format_X z)
  | JBool b => Ok (if b then "1" else "0")
  | JStr _ => Raise ValueError
  | JNull | JList _ | JObject _ => Raise TypeError
  end.

(** The reference the emoji branch returns for a code point. *)
Definition emoji_ref (hex : string) : string := "&#x" ++ hex ++ ";&#xFE0F;".

(** One turn of [for base in (16, 10)]: the code point read in [base],
    when it is a known one. *)
Definition emoji_literal (cps : gset Z) (tag_content : string) (base : Z) : option Z :=
  match Py.int tag_content base with
  | Some cp => if decide (cp ∈ cps) then Some cp else None
  | None => None
  end.

(** The emoji branch once the table is loaded. *)
Definition emoji_lookup (emojis : gmap string json) (cps : gset Z) (tag_content : string)
  : result string :=
  match emoji_literal cps tag_content 16 with
  | Some cp => Ok (emoji_ref (Py.format_X cp))
  | None =>
      match emoji_literal cps tag_content 10 with
      | Some cp => Ok (emoji_ref (Py.format_X cp))
      | None =>
          match emojis !! tag_content with
          | Some v =>
              cp ← subscript0 v;
              hex ← json_format_X cp;
              Ok (emoji_ref hex)
          | None => Ok EmptyString
          end
      end
  end.

(** The entity branch. *)
Definition entity (tag_content : string) : string :=
  match tag_content with
  | EmptyString => EmptyString
  | _ =>
      match Py.int tag_content 16 with
      | Some cp =>
          if cp <=? 1114111 then "&#x" ++ Py.format_X cp ++ ";"
          else "&" ++ tag_content ++ ";"
      | None => "&" ++ tag_content ++ ";"
      end
  end.

Definition class_commands : list string :=
  ["add_class"; "remove_class"; "set_class";
   "parent_add_class"; "parent_remove_class"; "parent_set_class"].

Definition name_commands : list string := ["set_name"; "parent_set_name"].

Definition mem (x : string) (l : list string) : bool := existsb (String.eqb x) l.

(** [__single_tags_substitute(m, out)]: [m1] and [m2] are the groups
    of the match, [m2] being [None] when the group took no part.  The
    result is the replacement text with the accumulator and the class
    state as the call leaves them. *)
Definition single_tags_substitute (set_order : list Z -> list Z)
    (file : list (string * json)) (st : cls_state)
    (m1 : string) (m2 : option string) (out : list event)
  : result (string * list event * cls_state) :=
  let tag_name := Py.lower m1 in
  let tag_content := match m2 with
                     | Some (String _ _ as g) => Py.strip g
                     | _ => EmptyString
                     end in
  if (String.eqb tag_name "htmlentity" || String.eqb tag_name "entity")%bool then
    Ok (entity tag_content, out, st)
  else if String.eqb tag_name "emoji" then
    let tag_content := Py.lower tag_content in
    match tag_content with
    | EmptyString => Ok (EmptyString, out, st)
    | _ =>
        '(emojis, cps, st') ← load_emojis set_order file st;
        r ← emoji_lookup emojis cps tag_content;
        Ok (r, out, st')
    end
  else if mem tag_name class_commands then
    match Py.split tag_content with
    | [] => Ok (EmptyString, out, st)
    | classes => Ok (EmptyString, (out ++ [ClassEvent tag_name classes])%list, st)
    end
  else if mem tag_name name_commands then
    match tag_content with
    | EmptyString => Ok (EmptyString, out, st)
    | _ => Ok (EmptyString, (out ++ [NameEvent tag_name tag_content])%list, st)
    end
  else
    Ok ("<" ++ m1 ++ match tag_content with
                     | EmptyString => EmptyString
                     | _ => " " ++ tag_content
                     end ++ ">", out, st).

End CustomTagsFix.

(** ** The document tree

    A parsed page is a tree of tags and strings.  Every node carries
    the identity of the Python object it stands for, so that a list of
    nodes collected before a mutation still names the same nodes after
    it.  A mutation through a reference is an update of every node of
    that identity; in a tree as the parser builds it identities are
    unique. *)

Module Dom.

Definition node_id := nat.

(** An attribute value is text, or a list for the multi-valued
    attributes such as [class]. *)
Inductive attr_value : Type :=
| AttrStr (s : string)
| AttrList (l : list string).

Inductive node : Type :=
| NavigableString (i : node_id) (s : string)
| Tag (i : node_id) (name : string) (attrs : gmap string attr_value) (contents : list node).

Definition ident (n : node) : node_id :=
  match n with NavigableString i _ => i | Tag i _ _ _ => i end.

Definition is_string (n : node) : bool :=
  match n with NavigableString _ _ => true | Tag _ _ _ _ => false end.

(** [tag.name]; a string has none. *)
Definition name (n : node) : option string :=
  match n with NavigableString _ _ => None | Tag _ nm _ _ => Some nm end.

Definition named (nm : string) (n : node) : bool :=
  match n with NavigableString _ _ => false | Tag _ nm' _ _ => String.eqb nm' nm end.

Definition attrs (n : node) : gmap string attr_value :=
  match n with NavigableString _ _ => ∅ | Tag _ _ a _ => a end.

Definition contents (n : node) : list node :=
  match n with NavigableString _ _ => [] | Tag _ _ _ cs => cs end.

Definition has_id (i : node_id) (n : node) : bool := Nat.eqb (ident n) i.

(** The descendants in document order, the node itself left out. *)
Fixpoint descendants (n : node) : list node :=
  match n with
  | NavigableString _ _ => []
  | Tag _ _ _ cs => flat_map (fun c => c :: descendants c) cs
  end.

Definition nodes (n : node) : list node := n :: descendants n.

(** Induction over a tree, the children taken together. *)
Lemma node_ind' (P : node -> Prop) :
  (forall i s, P (NavigableString i s)) ->
  (forall i nm a cs, Forall P cs -> P (Tag i nm a cs)) ->
  forall n, P n.
Proof.
  intros Hs Ht. fix IH 1. intros [i s|i nm a cs]; [apply Hs|].
  apply Ht. induction cs as [|c cs IHcs]; constructor; [apply IH|apply IHcs].
Qed.

(** [tag.get_text()] *)
Fixpoint get_text (n : node) : string :=
  match n with
  | NavigableString _ s => s
  | Tag _ _ _ cs => String.concat EmptyString (map get_text cs)
  end.

(** [tag.string]: the text of the only child, followed down. *)
Fixpoint string_of (n : node) : option string :=
  match n with
  | NavigableString _ s => Some s
  | Tag _ _ _ [c] => string_of c
  | Tag _ _ _ _ => None
  end.

(** The node of a given identity, searched from [root]. *)
Definition lookup (i : node_id) (root : node) : option node :=
  List.find (has_id i) (nodes root).

Fixpoint first_some {A} (l : list (option A)) : option A :=
  match l with
  | [] => None
  | Some a :: _ => Some a
  | None :: r => first_some r
  end.

(** The ancestors of the node [i], nearest first: [node.parent],
    [node.parent.parent], ... *)
Fixpoint ancestors (i : node_id) (n : node) : option (list node) :=
  match n with
  | NavigableString _ _ => None
  | Tag _ _ _ cs =>
      if existsb (has_id i) cs then Some [n]
      else match first_some (map (ancestors i) cs) with
           | Some l => Some (l ++ [n])%list
           | None => None
           end
  end.

Definition parent_of (i : node_id) (root : node) : option node :=
  match ancestors i root with
  | Some (p :: _) => Some p
  | _ => None
  end.

(** *** Updates through a reference *)

(** [splice f n]: every child for which [f] gives a list is replaced by
    that list; the others are kept and searched in turn. *)
Fixpoint splice (f : node -> option (list node)) (n : node) : node :=
  match n with
  | NavigableString _ _ => n
  | Tag i nm a cs =>
      Tag i nm a (flat_map (fun c => match f c with
                                     | Some l => l
                                     | None => [splice f c]
                                     end) cs)
  end.

Definition at_id (i : node_id) (g : node -> list node) (c : node) : option (list node) :=
  if has_id i c then Some (g c) else None.

(** [node.replace_with(new...)], [node.extract()] and
    [node.decompose()], [node.insert_before(new)],
    [node.insert_after(new)] seen from the root. *)
Definition replace_with (i : node_id) (new : list node) : node -> node :=
  splice (at_id i (fun _ => new)).
Definition remove (i : node_id) : node -> node := replace_with i [].
Definition insert_before (i : node_id) (new : node) : node -> node :=
  splice (at_id i (fun c => [new; c])).
Definition insert_after (i : node_id) (new : node) : node -> node :=
  splice (at_id i (fun c => [c; new])).

(** An in-place change of the node [i] itself. *)
Fixpoint update (i : node_id) (g : node -> node) (n : node) : node :=
  if has_id i n then g n
  else match n with
       | NavigableString _ _ => n
       | Tag j nm a cs => Tag j nm a (map (update i g) cs)
       end.

Definition set_name (nm : string) (n : node) : node :=
  match n with NavigableString _ _ => n | Tag i _ a cs => Tag i nm a cs end.

Definition set_attrs (a : gmap string attr_value) (n : node) : node :=
  match n with NavigableString _ _ => n | Tag i nm _ cs => Tag i nm a cs end.

Definition set_contents (cs : list node) (n : node) : node :=
  match n with NavigableString _ _ => n | Tag i nm a _ => Tag i nm a cs end.

(** [tag.append(new)] *)
Definition append (i : node_id) (new : node) : node -> node :=
  update i (fun n => set_contents (contents n ++ [new]) n).

(** *** [smooth()]

    Adjacent strings are merged into one.  The merged string keeps the
    identity of the left one. *)
Fixpoint smooth_list (cs : list node) : list node :=
  match cs with
  | NavigableString i s :: r =>
      match smooth_list r with
      | NavigableString _ s' :: r' => NavigableString i (s ++ s') :: r'
      | r' => NavigableString i s :: r'
      end
  | c :: r => c :: smooth_list r
  | [] => []
  end.

Fixpoint smooth (n : node) : node :=
  match n with
  | NavigableString _ _ => n
  | Tag i nm a cs => Tag i nm a (smooth_list (map smooth cs))
  end.

(** *** Searching *)

(** How a [class_] argument is matched: against each value of the list
    and against the values joined by blanks; a text value is compared
    as it is. *)
Definition class_matches (a : gmap string attr_value) (wanted : list string) : bool :=
  match a !! "class" with
  | Some (AttrList l) =>
      (existsb (fun c => existsb (String.eqb c) wanted) l
       || existsb (String.eqb (String.concat " " l)) wanted)%bool
  | Some (AttrStr s) => existsb (String.eqb s) wanted
  | None => false
  end.

Definition name_in (names : list string) (n : node) : bool :=
  match n with
  | NavigableString _ _ => false
  | Tag _ nm _ _ => existsb (String.eqb nm) names
  end.

(** [tag(names)], [tag(names, class_=wanted)] and their variants with
    [recursive=False]. *)
Definition find_all (names : list string) (n : node) : list node :=
  List.filter (name_in names) (descendants n).

Definition find_all_class (names wanted : list string) (n : node) : list node :=
  List.filter (fun t => (name_in names t && class_matches (attrs t) wanted)%bool) (descendants n).

Definition find_children (names : list string) (n : node) : list node :=
  List.filter (name_in names) (contents n).

(** [tag.find(name)], which is also [tag.name] written as an attribute. *)
Definition find (nm : string) (n : node) : option node :=
  head (find_all [nm] n).

(** *** Classes *)

(** [needle in haystack] on text. *)
Fixpoint is_substring (needle haystack : string) : bool :=
  (String.prefix needle haystack
   || match haystack with
      | EmptyString => false
      | String _ r => is_substring needle r
      end)%bool.

Fixpoint remove_first (x : string) (l : list string) : list string :=
  match l with
  | [] => []
  | y :: r => if String.eqb x y then r else y :: remove_first x r
  end.

Definition mem (x : string) (l : list string) : bool := existsb (String.eqb x) l.

(** [html_add_class(tag, classes)] on the attributes; the flag tells
    whether a class was appended.  Appending to a text value raises. *)
Definition add_class_step (acc : result (bool * gmap string attr_value)) (class_ : string)
  : result (bool * gmap string attr_value) :=
  '(appended, a) ← acc;
  match a !! "class" with
  | Some (AttrList l) =>
      if mem class_ l then Ok (appended, a)
      else Ok (true, <["class" := AttrList (l ++ [class_])]> a)
  | Some (AttrStr s) =>
      if is_substring class_ s then Ok (appended, a) else Raise AttributeError
  | None => Raise (KeyError "class")
  end.

Definition html_add_class (a : gmap string attr_value) (classes : list string)
  : result (bool * gmap string attr_value) :=
  let a0 := match a !! "class" with
            | None => <["class" := AttrList []]> a
            | Some _ => a
            end in
  foldl add_class_step (Ok (false, a0)) classes.

(** [html_remove_class(tag, classes)] *)
Definition remove_class_step (acc : result (bool * gmap string attr_value)) (class_ : string)
  : result (bool * gmap string attr_value) :=
  '(removed, a) ← acc;
  match a !! "class" with
  | Some (AttrList l) =>
      if mem class_ l
      then Ok (true, <["class" := AttrList (remove_first class_ l)]> a)
      else Ok (removed, a)
  | Some (AttrStr s) =>
      if is_substring class_ s then Raise AttributeError else Ok (removed, a)
  | None => Raise (KeyError "class")
  end.

Definition html_remove_class (a : gmap string attr_value) (classes : list string)
  : result (bool * gmap string attr_value) :=
  match a !! "class" with
  | None => Ok (false, a)
  | Some _ =>
      '(removed, a) ← foldl remove_class_step (Ok (false, a)) classes;
      if (removed : bool) then
        match a !! "class" with
        | Some (AttrList []) => Ok (true, delete "class" a)
        | _ => Ok (true, a)
        end
      else Ok (false, a)
  end.

(** [html_set_class(tag, classes)] *)
Definition html_set_class (a : gmap string attr_value) (classes : list string)
  : result (gmap string attr_value) :=
  '(_, a) ← html_add_class (<["class" := AttrList []]> a) classes;
  Ok a.

(** *** The parsed page *)

Fixpoint max_id (n : node) : node_id :=
  match n with
  | NavigableString i _ => i
  | Tag i _ _ cs => foldr (fun c m => Nat.max (max_id c) m) i cs
  end.

(** [HTMLDocument]: the tree under [body], the next identity to hand
    out, and the references the constructor keeps.  The [head] is left
    out: no fixer reads or writes it. *)
Record HTMLDocument : Type := {
  doc_path : string;
  body : node;
  next_id : node_id;
  article_content : node_id;
  table_of_contents : option node_id;
  sections : list node_id
}.

Definition with_body (doc : HTMLDocument) (b : node) : HTMLDocument :=
  {| doc_path := doc_path doc; body := b; next_id := next_id doc;
     article_content := article_content doc;
     table_of_contents := table_of_contents doc; sections := sections doc |}.

Definition with_next_id (doc : HTMLDocument) (k : node_id) : HTMLDocument :=
  {| doc_path := doc_path doc; body := body doc; next_id := k;
     article_content := article_content doc;
     table_of_contents := table_of_contents doc; sections := sections doc |}.

(** [tag.name] on a tag that may be [None]. *)
Definition child_named (nm : string) (n : node) : result node :=
  match find nm n with
  | Some t => Ok t
  | None => Raise AttributeError
  end.

Definition is_contents_block (d : node) : bool :=
  match find "h3" d with
  | Some h3 => match string_of h3 with
               | Some s => String.eqb s "Contents"
               | None => false
               end
  | None => false
  end.

(** [HTMLDocument.__init__] once the file is parsed: [page] is the
    tree under [body].  A missing [main], [article] or one of the first
    two [div]s makes the next attribute access fail; a missing third
    [div] leaves [article_content] at [None], and the call of it
    fails. *)
Definition HTMLDocument_init (path : string) (page : node) : result HTMLDocument :=
  main ← child_named "main" page;
  article ← child_named "article" main;
  d1 ← child_named "div" article;
  d2 ← child_named "div" d1;
  match find "div" d2 with
  | None => Raise TypeError
  | Some d3 =>
      let toc_candidates :=
        List.filter (fun t => (name_in ["div"] t
                               && class_matches (attrs t) ["m-block m-default"])%bool)
                    (contents d3) in
      Ok {| doc_path := path; body := page; next_id := S (max_id page);
            article_content := ident d3;
            table_of_contents := ident <$> List.find is_contents_block toc_candidates;
            sections := map ident (find_children ["section"] d3) |}
  end.

(** [doc.smooth()] *)
Definition doc_smooth (doc : HTMLDocument) : HTMLDocument := with_body doc (smooth (body doc)).

(** [doc.new_tag(name, string=..., class_=..., **kwargs)] before it is
    placed: the tag with its string child, and the document with the
    identities used up.  [class_] is stored as the text it is given as. *)
Definition make_tag (doc : HTMLDocument) (nm : string) (string_ : option string)
    (class_ : option string) (kwargs : gmap string attr_value) : node * HTMLDocument :=
  let i := next_id doc in
  let a := match class_ with
           | Some c => <["class" := AttrStr c]> kwargs
           | None => kwargs
           end in
  match string_ with
  | Some str => (Tag i nm a [NavigableString (S i) str], with_next_id doc (S (S i)))
  | None => (Tag i nm a [], with_next_id doc (S i))
  end.

(** *** Markup that is parsed into the page *)

(** What the parser reads out of a text, before the nodes are given
    their identities. *)
Inductive markup : Type :=
| MText (s : string)
| MTag (name : string) (attrs : gmap string attr_value) (contents : list markup).

(** The nodes for a parsed markup, numbered from [k] on in document
    order; the second component is the next free identity. *)
Fixpoint alloc (k : node_id) (m : markup) : node * node_id :=
  match m with
  | MText s => (NavigableString k s, S k)
  | MTag nm a ms =>
      let '(cs, k') :=
        fold_left (fun acc m => let '(cs, k) := acc in
                                let '(c, k') := alloc k m in ((cs ++ [c])%list, k'))
                  ms ([], S k) in
      (Tag k nm a cs, k')
  end.

Definition alloc_list (k : node_id) (ms : list markup) : list node * node_id :=
  fold_left (fun acc m => let '(cs, k) := acc in
                          let '(c, k') := alloc k m in ((cs ++ [c])%list, k'))
            ms ([], k).

Section Parser.

(** [soup.BeautifulSoup(text, 'html5lib').body.contents] *)
Variable html5lib : string -> list markup.

(** [html_replace_tag(tag, new_tag_str)]: the new nodes, and the
    document with them in the place of the tag. *)
Definition html_replace_tag (doc : HTMLDocument) (tag : node_id) (new_tag_str : string)
  : list node * HTMLDocument :=
  match new_tag_str with
  | EmptyString => ([], with_body doc (remove tag (body doc)))
  | _ =>
      let '(newTags, k) := alloc_list (next_id doc) (html5lib new_tag_str) in
      (newTags, with_next_id (with_body doc (replace_with tag newTags (body doc))) k)
  end.

End Parser.

(** *** Nodes with their parent links

    A node that a search hands out is kept with the identities and
    names of its ancestors, nearest first: what [node.parent],
    [node.parent.parent], ... give. *)
Definition chain : Type := list (node_id * string).

Definition located : Type := node * chain.

Definition link_of (n : node) : list (node_id * string) :=
  match n with
  | NavigableString _ _ => []
  | Tag i nm _ _ => [(i, nm)]
  end.

(** [html_find_parent(tag, names, cutoff)] along the chain of [tag]. *)
Fixpoint html_find_parent (anc : chain) (names : list string) (cutoff : option node_id)
  : option node_id :=
  match anc with
  | [] => None
  | (i, nm) :: up =>
      if match cutoff with Some c => Nat.eqb i c | None => false end then None
      else if mem nm names then Some i
      else html_find_parent up names cutoff
  end.

(** [html_shallow_search(starting_tag, names, filter)] *)
Fixpoint html_shallow_search (anc : chain) (starting_tag : node) (names : list string)
    (filter : located -> bool) : list located :=
  match starting_tag with
  | NavigableString _ _ => []
  | Tag i nm _ cs =>
      if (mem nm names && filter (starting_tag, anc))%bool then [(starting_tag, anc)]
      else
        let anc' := (i, nm) :: anc in
        flat_map (fun tag =>
                    match tag with
                    | NavigableString _ _ => []
                    | Tag _ nm' _ _ =>
                        if mem nm' names
                        then (if filter (tag, anc') then [(tag, anc')] else [])
                        else html_shallow_search anc' tag names filter
                    end) cs
  end.

(** The loop of [html_string_descendants] over the children of a tag. *)
Fixpoint string_descendants (anc : chain) (tag : node) (filter : located -> bool)
  : list located :=
  match tag with
  | NavigableString _ _ => []
  | Tag i nm _ cs =>
      let anc' := (i, nm) :: anc in
      flat_map (fun c =>
                  match c with
                  | NavigableString _ _ => if filter (c, anc') then [(c, anc')] else []
                  | Tag _ _ _ _ => string_descendants anc' c filter
                  end) cs
  end.

(** [html_string_descendants(starting_tag, filter)]; a string that the
    filter refuses has no children to loop over. *)
Definition html_string_descendants (anc : chain) (starting_tag : node)
    (filter : located -> bool) : result (list located) :=
  match starting_tag with
  | NavigableString _ _ =>
      if filter (starting_tag, anc) then Ok [(starting_tag, anc)]
      else Raise AttributeError
  | Tag _ _ _ _ => Ok (string_descendants anc starting_tag filter)
  end.

(** The chain of the node [i] read off the tree. *)
Definition chain_of (i : node_id) (root : node) : chain :=
  match ancestors i root with
  | Some l => flat_map link_of l
  | None => []
  end.

End Dom.

(** ** CodeBlockFix *)

Module CodeBlockFix.
Import Dom.

Fixpoint drop_while {A} (f : A -> bool) (l : list A) : list A :=
  match l with
  | x :: r => if f x then drop_while f r else l
  | [] => []
  end.

(** [tag.string == '::'] *)
Definition is_sep (t : node) : bool :=
  match string_of t with
  | Some s => String.eqb s "::"
  | None => false
  end.

(** [while tags and tags[-1].string == '::': del tags[-1]] *)
Definition strip_seps (tags : list node) : list node :=
  rev (drop_while is_sep (rev tags)).

(** [''.join([tag.get_text() for tag in tags])] *)
Definition full_text (tags : list node) : string :=
  String.concat EmptyString (map get_text tags).

(** Dropping the last token and the separators before it shortens the
    run: what makes the two recursions below end. *)
Lemma strip_seps_length (tags : list node) :
  (length (strip_seps tags) <= length tags)%nat.
Proof.
  unfold strip_seps. rewrite length_rev, <- (length_rev tags).
  induction (rev tags) as [|t r IH]; simpl; [lia|].
  destruct (is_sep t); simpl; lia.
Qed.

Lemma removelast_length (tags : list node) :
  length (removelast tags) = pred (length tags).
Proof.
  induction tags as [|t [|t' r] IH]; simpl in *; [reflexivity..|lia].
Qed.

Lemma shorter_after_drop (tags : list node) :
  tags <> [] -> (length (strip_seps (removelast tags)) < length tags)%nat.
Proof.
  intros Hne. pose proof (strip_seps_length (removelast tags)) as Hs.
  rewrite removelast_length in Hs. destruct tags; [done|simpl in *; lia].
Qed.

Definition set_class_of (t : node) (class_ : string) : result node :=
  a ← html_set_class (attrs t) [class_];
  Ok (set_attrs a t).

Section Colourize.

(** [_enums.fullmatch], [_types.fullmatch], [_namespaces.fullmatch]:
    the three alternations, compiled from the configuration and the
    symbols of the project. *)
Variables _enums _types _namespaces : string -> bool.

(** The loop that drops trailing tokens until the text left is a known
    namespace; the tokens it leaves, none when nothing fits. *)
Equations ns_prefix (tags : list node) : list node by wf (length tags) lt :=
  ns_prefix [] := [];
  ns_prefix (t :: r) :=
    if _namespaces (full_text (t :: r)) then t :: r
    else ns_prefix (strip_seps (removelast (t :: r))).
Next Obligation. apply (shorter_after_drop (t :: r)). discriminate. Qed.

(** The end of [__colourize_compound_def]: the tokens left become one
    token.  [next] is the identity of the string that is created. *)
Definition collapse (next : node_id) (tags : list node) : result (list (option node)) :=
  match tags with
  | [] => Ok []
  | t0 :: rest =>
      let t0 := set_contents [NavigableString next (full_text tags)] t0 in
      '(removed, a) ← html_remove_class (attrs t0) ["n"; "nl"; "kt"];
      a ← (if (removed : bool) then '(_, a) ← html_add_class a ["ns"]; Ok a else Ok a);
      Ok (Some (set_attrs a t0) :: map (fun _ => None) rest)
  end.

(** [__colourize_compound_def(tags)].  The tokens are given by value
    in document order; the result lists, for each of them, the token
    as the call leaves it, [None] when it was decomposed, with the
    returned flag and the next free identity. *)
Equations colourize_compound_def (next : node_id) (tags : list node)
  : result (bool * list (option node) * node_id) by wf (length tags) lt :=
  colourize_compound_def next [] := Raise AssertionError;
  colourize_compound_def next (t :: r) :=
    let tags := t :: r in
    if is_sep t then Raise AssertionError
    else if (negb (Nat.eqb (length tags) 1) && is_sep (List.last tags t))%bool
    then Raise AssertionError
    else
      let full_str := full_text tags in
      let rest := strip_seps (removelast tags) in
      let dropped := drop (length rest) (removelast tags) in
      let mark (class_ : string) :=
        last' ← set_class_of (List.last tags t) class_;
        '(out, next') ← match rest with
                        | [] => Ok ([], next)
                        | _ => '(_, out, next') ← colourize_compound_def next rest;
                               Ok (out, next')
                        end;
        Ok (true, (out ++ map Some dropped ++ [Some last'])%list, next') in
      if _enums full_str then mark "ne"
      else if _types full_str then mark "ut"
      else
        match ns_prefix tags with
        | [] => Ok (false, map Some tags, next)
        | kept =>
            out ← collapse next kept;
            Ok (true, (out ++ map Some (drop (length kept) tags))%list, S next)
        end.
Next Obligation. apply (shorter_after_drop (t :: r)). discriminate. Qed.

End Colourize.

(** *** The last phase of [__call__]: inline code blocks

    [code_block.parent] is a paragraph and [parent.parent] a [div]: the
    block is renamed [pre] and moved in front of the paragraph, the
    paragraph is smoothed, and destroyed when nothing or only blank
    text is left in it. *)

(** The test in front of [html_destroy_node(parent)]. *)
Definition blank_paragraph (p : node) : result bool :=
  match contents p with
  | [] => Ok true
  | [c] =>
      match string_of c with
      | Some s => Ok (String.eqb (Py.strip s) EmptyString)
      | None => Raise AttributeError
      end
  | _ => Ok false
  end.

(** Seen from the [div]: its child [c], when it is a paragraph that
    holds the block [b], gives way to the block followed by what is
    left of the paragraph. *)
Definition hoist (b : node_id) (c : node) : result (option (list node)) :=
  match c with
  | Tag j nm a pcs =>
      if (String.eqb nm "p" && existsb (has_id b) pcs)%bool then
        let blocks := map (set_name "pre") (List.filter (has_id b) pcs) in
        let p' := smooth (Tag j nm a (List.filter (fun c => negb (has_id b c)) pcs)) in
        blank ← blank_paragraph p';
        Ok (Some (blocks ++ (if (blank : bool) then [] else [p']))%list)
      else Ok None
  | NavigableString _ _ => Ok None
  end.

Fixpoint promote (b : node_id) (n : node) : result node :=
  match n with
  | NavigableString _ _ => Ok n
  | Tag i nm a cs =>
      cs' ← traverse (fun c =>
                        h ← (if String.eqb nm "div" then hoist b c else Ok None);
                        match h with
                        | Some l => Ok l
                        | None => c' ← promote b c; Ok [c']
                        end) cs;
      Ok (Tag i nm a (concat cs'))
  end.

(** The guard of the loop body, read through the parent links. *)
Definition qualifies (root : node) (b : node_id) : bool :=
  match ancestors b root with
  | Some (p :: g :: _) => (named "p" p && named "div" g)%bool
  | _ => false
  end.

(** One turn of [for code_block in code_blocks]. *)
Definition promote_step (acc : result (bool * node)) (b : node_id) : result (bool * node) :=
  '(changed_this_pass, root) ← acc;
  if qualifies root b then
    root' ← promote b root;
    Ok (true, root')
  else Ok (changed_this_pass, root).

(** One pass of the [while] loop. *)
Definition promote_pass (code_blocks : list node_id) (root : node) : result (bool * node) :=
  foldl promote_step (Ok (false, root)) code_blocks.

(** What bounds the passes: the children of the paragraphs that are
    children of a [div]. *)
Definition paragraph_children (c : node) : nat :=
  if named "p" c then length (contents c) else 0%nat.

Fixpoint load (n : node) : nat :=
  match n with
  | NavigableString _ _ => 0%nat
  | Tag _ nm _ cs =>
      ((if String.eqb nm "div" then list_sum (map paragraph_children cs) else 0)
       + list_sum (map load cs))%nat
  end.

(** The share of a child [c] in the load of its parent. *)
Definition weight (parent_is_div : bool) (c : node) : nat :=
  ((if parent_is_div then paragraph_children c else 0) + load c)%nat.

Lemma load_tag i nm a cs :
  load (Tag i nm a cs) = list_sum (map (weight (String.eqb nm "div")) cs).
Proof.
  simpl. unfold weight. induction cs as [|c cs IH]; simpl; [destruct (String.eqb nm "div"); reflexivity|].
  destruct (String.eqb nm "div"); simpl in *; lia.
Qed.

Lemma smooth_list_sum (w : node -> nat) l :
  (forall i s, w (NavigableString i s) = 0%nat) ->
  list_sum (map w (smooth_list l)) = list_sum (map w l).
Proof.
  intros Hw. induction l as [|c l IH]; [reflexivity|].
  destruct c as [i s|i nm a cs]; simpl.
  - destruct (smooth_list l) as [|[i' s'|i' nm' a' cs'] r'] eqn:E; simpl in *; rewrite ?Hw in *; lia.
  - rewrite IH. reflexivity.
Qed.

Lemma smooth_list_length l : (length (smooth_list l) <= length l)%nat.
Proof.
  induction l as [|[i s|i nm a cs] l IH]; simpl; [lia| |lia].
  destruct (smooth_list l) as [|[i' s'|i' nm' a' cs'] r']; simpl in *; lia.
Qed.

Lemma weight_smooth d n : (weight d (smooth n) <= weight d n)%nat.
Proof.
  revert d. induction n as [i s|i nm a cs IH] using node_ind'; intros d; [reflexivity|].
  assert (Hsum : forall d', (list_sum (map (weight d') (smooth_list (map smooth cs)))
                 <= list_sum (map (weight d') cs))%nat).
  { intros d'. rewrite smooth_list_sum.
    - induction IH as [|c cs Hc _ IHcs]; simpl; [lia|]. specialize (Hc d'). lia.
    - intros; destruct d'; reflexivity. }
  unfold weight. change (smooth (Tag i nm a cs)) with (Tag i nm a (smooth_list (map smooth cs))).
  rewrite !load_tag. specialize (Hsum (String.eqb nm "div")).
  destruct d; [|lia]. unfold paragraph_children; simpl.
  destruct (String.eqb nm "p"); [|lia].
  pose proof (smooth_list_length (map smooth cs)). rewrite length_map in *. lia.
Qed.

(** Some [div] has a paragraph child that holds a node [b]. *)
Fixpoint occurs (b : node_id) (n : node) : bool :=
  match n with
  | NavigableString _ _ => false
  | Tag _ nm _ cs =>
      ((String.eqb nm "div"
        && existsb (fun c => named "p" c && existsb (has_id b) (contents c)) cs)
       || existsb (occurs b) cs)%bool
  end.

Lemma weight_set_name d c : (weight d (set_name "pre" c) <= weight false c)%nat.
Proof.
  destruct c as [i s|i nm a cs]; simpl; unfold weight, paragraph_children; simpl.
  - destruct d; reflexivity.
  - destruct d; simpl; destruct (String.eqb nm "div"); lia.
Qed.

Lemma filter_split_sum (w : node -> nat) (f : node -> bool) l :
  (list_sum (map w (List.filter f l)) + list_sum (map w (List.filter (fun c => negb (f c)) l))
   = list_sum (map w l))%nat.
Proof.
  induction l as [|c l IH]; simpl; [reflexivity|].
  destruct (f c); simpl; lia.
Qed.

Lemma filter_split_length (f : node -> bool) (l : list node) :
  existsb f l = true ->
  (length (List.filter (fun c => negb (f c)) l) < length l)%nat.
Proof.
  induction l as [|c l IH]; simpl; [discriminate|].
  destruct (f c); simpl; intros H.
  - pose proof (List.filter_length_le (fun c => negb (f c)) l). lia.
  - specialize (IH H). lia.
Qed.

Lemma hoist_weight b c l :
  hoist b c = Ok (Some l) ->
  (list_sum (map (weight true) l) < weight true c)%nat.
Proof.
  destruct c as [i s|j nm a pcs]; simpl; [discriminate|].
  destruct (String.eqb nm "p" && existsb (has_id b) pcs)%bool eqn:G; [|discriminate].
  apply andb_prop in G as [Hp Hb].
  intros H. apply bind_ok in H as (blank & Hblank & H). injection H as <-.
  set (rest := List.filter (fun c => negb (has_id b c)) pcs) in *.
  assert (Hblocks : (list_sum (map (weight true) (map (set_name "pre") (List.filter (has_id b) pcs)))
                     <= list_sum (map (weight false) (List.filter (has_id b) pcs)))%nat).
  { induction (List.filter (has_id b) pcs) as [|x xs IHx]; simpl; [lia|].
    pose proof (weight_set_name true x). lia. }
  assert (Hp' : (weight true (smooth (Tag j nm a rest)) <= length rest + list_sum (map (weight false) rest))%nat).
  { etransitivity; [apply weight_smooth|]. unfold weight at 1.
    rewrite load_tag. unfold paragraph_children. simpl. rewrite Hp.
    apply String.eqb_eq in Hp. subst nm. simpl. lia. }
  pose proof (filter_split_sum (weight false) (has_id b) pcs) as Hsum.
  pose proof (filter_split_length (has_id b) pcs Hb) as Hlen. fold rest in Hsum, Hlen.
  assert (Hc : weight true (Tag j nm a pcs) = (length pcs + list_sum (map (weight false) pcs))%nat).
  { unfold weight at 1. rewrite load_tag. unfold paragraph_children. simpl. rewrite Hp.
    apply String.eqb_eq in Hp. subst nm. reflexivity. }
  rewrite Hc, map_app, list_sum_app.
  change (Tag j nm a (smooth_list (map smooth rest))) with (smooth (Tag j nm a rest)).
  destruct blank; cbn [map list_sum fold_right]; lia.
Qed.

Lemma promote_shape b n n' :
  promote b n = Ok n' ->
  name n' = name n /\ (named "div" n = false -> length (contents n') = length (contents n)).
Proof.
  destruct n as [i s|i nm a cs]; simpl.
  - intros [= <-]. done.
  - intros H. apply bind_ok in H as (cs' & Hcs & H). injection H as <-. simpl. split; [done|].
    intros Hd. rewrite Hd in Hcs. clear Hd.
    revert cs' Hcs. induction cs as [|c cs IH]; intros cs' Hcs.
    + injection Hcs as <-. reflexivity.
    + rewrite traverse_cons in Hcs. apply bind_ok in Hcs as (l & Hl & Hcs).
      apply bind_ok in Hcs as (ls & Hls & Hcs). injection Hcs as <-.
      simpl in Hl. apply bind_ok in Hl as (c' & _ & Hl). injection Hl as <-.
      simpl. f_equal. apply IH, Hls.
Qed.

Lemma promote_weight b n : forall n' d,
  promote b n = Ok n' -> (weight d n' <= weight d n)%nat.
Proof.
  induction n as [i s|i nm a cs IH] using node_ind'; intros n' d H.
  - injection H as <-. lia.
  - pose proof (promote_shape _ _ _ H) as [Hname Hlen].
    simpl in H. apply bind_ok in H as (cs' & Hcs & H). injection H as <-.
    assert (Hsum : (list_sum (map (weight (String.eqb nm "div")) (concat cs'))
                    <= list_sum (map (weight (String.eqb nm "div")) cs))%nat).
    { clear Hname Hlen. revert cs' Hcs. induction IH as [|c cs Hc _ IHcs]; intros cs' Hcs.
      - injection Hcs as <-. simpl. lia.
      - rewrite traverse_cons in Hcs. apply bind_ok in Hcs as (l & Hl & Hcs).
        apply bind_ok in Hcs as (ls & Hls & Hcs). injection Hcs as <-.
        specialize (IHcs _ Hls). simpl. rewrite map_app, list_sum_app.
        enough (list_sum (map (weight (String.eqb nm "div")) l) <= weight (String.eqb nm "div") c)%nat by lia.
        apply bind_ok in Hl as (h & Hh & Hl). destruct h as [l'|].
        + injection Hl as <-. destruct (String.eqb nm "div"); [|discriminate].
          apply hoist_weight in Hh. lia.
        + apply bind_ok in Hl as (c' & Hc' & Hl). injection Hl as <-. simpl.
          specialize (Hc _ (String.eqb nm "div") Hc'). lia. }
    unfold weight. rewrite !load_tag. destruct d; [|lia].
    unfold paragraph_children. simpl. destruct (String.eqb nm "p") eqn:Hp; [|lia].
    apply String.eqb_eq in Hp. subst nm. simpl in *. specialize (Hlen eq_refl). lia.
Qed.

Lemma promote_strict b n : forall n',
  promote b n = Ok n' -> occurs b n = true -> (load n' < load n)%nat.
Proof.
  induction n as [i s|i nm a cs IH] using node_ind'; intros n' H Hocc; [discriminate|].
  simpl in H. apply bind_ok in H as (cs' & Hcs & H). injection H as <-.
  rewrite !load_tag. simpl in Hocc.
  assert (Hex : existsb (fun c => (String.eqb nm "div" && (named "p" c && existsb (has_id b) (contents c))
                                   || occurs b c)%bool) cs = true).
  { clear -Hocc. induction cs as [|c cs IHc]; simpl in *; [destruct (String.eqb nm "div"); discriminate|].
    destruct (String.eqb nm "div"); simpl in *.
    - destruct (named "p" c && existsb (has_id b) (contents c))%bool; simpl in *; [reflexivity|].
      destruct (occurs b c); simpl in *; [reflexivity|]. apply IHc. exact Hocc.
    - destruct (occurs b c); simpl in *; [reflexivity|]. apply IHc. exact Hocc. }
  clear Hocc. revert cs' Hcs Hex. induction IH as [|c cs Hc _ IHcs]; intros cs' Hcs Hex; [discriminate|].
  rewrite traverse_cons in Hcs. apply bind_ok in Hcs as (l & Hl & Hcs).
  apply bind_ok in Hcs as (ls & Hls & Hcs). injection Hcs as <-.
  simpl. rewrite map_app, list_sum_app.
  assert (Hle : (list_sum (map (weight (String.eqb nm "div")) (concat ls))
                 <= list_sum (map (weight (String.eqb nm "div")) cs))%nat).
  { pose proof (promote_weight b (Tag 0%nat nm a cs) (Tag 0%nat nm a (concat ls)) false) as Hw.
    unfold weight in Hw. rewrite !load_tag in Hw. simpl in Hw. apply Hw.
    change (promote b (Tag 0%nat nm a cs)) with
      (cs' ← traverse (fun c => h ← (if String.eqb nm "div" then hoist b c else Ok None);
                                match h with Some l => Ok l | None => c' ← promote b c; Ok [c'] end) cs;
       Ok (Tag 0%nat nm a (concat cs'))).
    rewrite Hls. reflexivity. }
  apply bind_ok in Hl as (h & Hh & Hl). destruct h as [l'|].
  - injection Hl as <-. destruct (String.eqb nm "div"); [|discriminate].
    apply hoist_weight in Hh. lia.
  - apply bind_ok in Hl as (c' & Hc' & Hl). injection Hl as <-. simpl.
    pose proof (promote_weight b c c' (String.eqb nm "div") Hc') as Hw.
    simpl in Hex. apply orb_prop in Hex as [Hhere|Hrest].
    + apply orb_prop in Hhere as [Hpat|Hocc].
      * exfalso. destruct (String.eqb nm "div"); [|discriminate]. simpl in Hpat.
        destruct c as [?|j nmc ac pcs]; [discriminate|]. simpl in Hh, Hpat. unfold named in Hpat.
        rewrite Hpat in Hh. apply bind_ok in Hh as (? & _ & Hh). discriminate.
      * specialize (Hc _ Hc' Hocc). unfold weight in *.
        pose proof (promote_shape _ _ _ Hc') as [Hname Hlen].
        assert (paragraph_children c' <= paragraph_children c)%nat.
        { unfold paragraph_children, named. destruct c as [?|j nmc ac pcs], c' as [?|j' nmc' ac' pcs']; simpl in *; try discriminate; try lia.
          injection Hname as ->. destruct (String.eqb nmc "p") eqn:Hp; [|lia].
          apply String.eqb_eq in Hp. subst nmc. specialize (Hlen eq_refl). lia. }
        destruct (String.eqb nm "div"); lia.
    + specialize (IHcs _ Hls Hrest). lia.
Qed.

Lemma first_some_map {A B} (f : A -> option B) (l : list A) (b : B) :
  first_some (map f l) = Some b -> exists a, In a l /\ f a = Some b.
Proof.
  induction l as [|x l IH]; simpl; [discriminate|].
  destruct (f x) eqn:E.
  - intros [= <-]. eauto.
  - intros H. destruct (IH H) as (a & Ha & Hf). eauto.
Qed.

Lemma ancestors_occurs i n : forall l,
  ancestors i n = Some l ->
  (exists front, l = front ++ [n])%list
  /\ (forall p rest, l = p :: rest -> existsb (has_id i) (contents p) = true)
  /\ (forall p g rest, l = p :: g :: rest ->
        named "p" p = true -> named "div" g = true -> occurs i n = true).
Proof.
  induction n as [j s|j nm a cs IH] using node_ind'; intros l H; [discriminate|].
  simpl in H. destruct (existsb (has_id i) cs) eqn:Hex.
  - injection H as <-. split; [exists []; reflexivity|]. split.
    + intros p rest [= <- <-]. exact Hex.
    + intros p g rest [=].
  - destruct (first_some (map (ancestors i) cs)) as [l0|] eqn:Hfs; [|discriminate].
    injection H as <-. apply first_some_map in Hfs as (c & Hin & Hc).
    rewrite List.Forall_forall in IH. destruct (IH c Hin l0 Hc) as ((front & ->) & Hhead & Hpat).
    split; [exists (front ++ [c])%list; reflexivity|]. split.
    + intros p rest Hl. destruct front as [|x front]; simpl in Hl.
      * injection Hl as <- <-. apply (Hhead c []). reflexivity.
      * injection Hl as <- <-. apply (Hhead x (front ++ [c])%list). reflexivity.
    + intros p g rest Hl Hp Hg. simpl. apply orb_true_iff.
      destruct front as [|x [|y front]]; simpl in Hl.
      * injection Hl as <- <- <-. left. unfold named in Hg. rewrite Hg. simpl.
        apply existsb_exists. exists c. split; [exact Hin|].
        rewrite Hp. simpl. apply (Hhead c []). reflexivity.
      * injection Hl as <- <- <-. right. apply existsb_exists. exists c. split; [exact Hin|].
        apply (Hpat x c []); [reflexivity|exact Hp|exact Hg].
      * injection Hl as <- <- <-. right. apply existsb_exists. exists c. split; [exact Hin|].
        apply (Hpat x y (front ++ [c])%list); [reflexivity|exact Hp|exact Hg].
Qed.

Lemma qualifies_occurs root b : qualifies root b = true -> occurs b root = true.
Proof.
  unfold qualifies. destruct (ancestors b root) as [[|p [|g rest]]|] eqn:H; try discriminate.
  intros Hq. apply andb_prop in Hq as [Hp Hg].
  destruct (ancestors_occurs _ _ _ H) as (_ & _ & Hpat). eapply Hpat; eauto.
Qed.

Lemma promote_pass_load code_blocks : forall root changed root',
  foldl promote_step (Ok (changed, root)) code_blocks = Ok (true, root') ->
  (load root' <= load root)%nat /\ (changed = false -> load root' < load root)%nat.
Proof.
  induction code_blocks as [|b bs IH]; intros root changed root' H; simpl in H.
  - injection H as -> <-. split; [lia|discriminate].
  - destruct (qualifies root b) eqn:Hq.
    + destruct (promote b root) as [root1|e] eqn:Hpr; simpl in H.
      * pose proof (promote_strict _ _ _ Hpr (qualifies_occurs _ _ Hq)).
        destruct (IH _ _ _ H) as [Hle _]. split; [lia|intros _; lia].
      * exfalso. clear -H. induction bs as [|b' bs IHb]; simpl in H; [discriminate|auto].
    + simpl in H. apply IH in H. exact H.
Qed.

(** The [while changed_this_pass] loop.  A pass that promotes a block
    lowers the load, so the loop ends. *)
Equations final_phase_loop (code_blocks : list node_id) (changed : bool) (root : node)
  : result (bool * node) by wf (load root) lt :=
  final_phase_loop code_blocks changed root with Logic.inspect (promote_pass code_blocks root) := {
    | exist _ (Raise e) _ => Raise e
    | exist _ (Ok (false, root')) _ => Ok (changed, root')
    | exist _ (Ok (true, root')) Hpass => final_phase_loop code_blocks true root' }.
Next Obligation.
  destruct (promote_pass_load _ _ _ _ Hpass) as [_ Hlt]. apply Hlt. reflexivity.
Qed.

Section Call.

(** The first phase of [__call__], the loop that rewrites the tokens
    of the code blocks, taken as a whole: it gives the tree it leaves
    and its [changed]. *)
Variable syntax_highlighting : node -> result (bool * node).

(** [CodeBlockFix.__call__(dir, file, doc)] on the tree under [body]. *)
Definition call (body : node) : result (bool * node) :=
  '(changed, body) ← syntax_highlighting body;
  let code_blocks := map ident (find_all_class ["code"] ["m-code"; "m-console"] body) in
  let changed := false in
  final_phase_loop code_blocks changed body.

End Call.

End CodeBlockFix.

(** ** DeadLinksFix *)

Module DeadLinksFix.
Import Dom.

(** The class [[-_a-zA-Z0-9]]. *)
Definition is_name_char (c : ascii) : bool :=
  let n := Py.ord c in
  (Nat.eqb n 45 || Nat.eqb n 95 || Py.between 48 57 n || Py.between 65 90 n
   || Py.between 97 122 n)%bool.

Fixpoint span_name (s : string) : string * string :=
  match s with
  | String c r => if is_name_char c then let '(h, t) := span_name r in (String c h, t)
                  else (EmptyString, s)
  | EmptyString => (EmptyString, EmptyString)
  end.

Fixpoint strip_prefix (p s : string) : option string :=
  match p, s with
  | EmptyString, _ => Some s
  | String a p', String b s' => if Ascii.eqb a b then strip_prefix p' s' else None
  | _, EmptyString => None
  end.

(** What may follow the file name: nothing, or [#] and a fragment on
    one line.  *)
Definition href_tail (target rest : string) : option (string * option string) :=
  match rest with
  | EmptyString => Some (target, None)
  | String c frag =>
      if (Nat.eqb (Py.ord c) 35 && CustomTagsFix.no_newline frag)%bool
      then Some (target, Some frag) else None
  end.

(** [__href.fullmatch(href)], giving groups 1 and 2: a file name made
    of letters, digits, [-] and [_] with the extension [.htm] or
    [.html], then nothing or [#] and a fragment. *)
Definition href_match (href : string) : option (string * option string) :=
  match span_name href with
  | (EmptyString, _) => None
  | (nm, rest) =>
      match strip_prefix ".htm" rest with
      | Some r1 =>
          match r1 with
          | String c r2 =>
              if Nat.eqb (Py.ord c) 108 then href_tail (nm ++ ".html") r2
              else href_tail (nm ++ ".htm") r1
          | EmptyString => href_tail (nm ++ ".htm") r1
          end
      | None => None
      end
  end.

(** [multi_sha256]: the module never imports [hashlib], so the
    call raises once the first assertion has passed. *)
Definition multi_sha256 (objs : list (option string)) : result string :=
  match objs with
  | [] => Raise AssertionError
  | _ => Raise (NameError "hashlib")
  end.

(** [os.path.join(dir, name)] for a relative [name]. *)
Fixpoint ends_with_slash (s : string) : bool :=
  match s with
  | EmptyString => false
  | String c EmptyString => Nat.eqb (Py.ord c) 47
  | String _ r => ends_with_slash r
  end.

Definition path_join (dir name : string) : string :=
  match dir with
  | EmptyString => name
  | _ => if ends_with_slash dir then dir ++ name else dir ++ "/" ++ name
  end.

(** [tag[key]] read as text. *)
Definition attr_text (a : gmap string attr_value) (key : string) : result string :=
  match a !! key with
  | Some (AttrStr s) => Ok s
  | Some (AttrList _) => Raise TypeError
  | None => Raise (KeyError key)
  end.

Section Fix.

(** [os.path.exists] on the joined path. *)
Variable path_exists : string -> bool.

(** The body of the loop for one anchor and its parent: [None] when
    the anchor is left alone, else the two as the turn leaves them. *)
Definition fix_anchor (dir : string) (anchor parent : node) : result (option (node * node)) :=
  href ← attr_text (attrs anchor) "href";
  match href_match href with
  | Some (target, fragment) =>
      if path_exists (path_join dir target) then Ok None
      else
        '(_, a) ← html_remove_class (attrs anchor) ["m-doc"];
        if name_in ["dt"; "div"] parent then
          '(_, a) ← html_add_class a ["m-doc-self"];
          '(id, pa) ← match attrs parent !! "id" with
                      | Some _ =>
                          id ← attr_text (attrs parent) "id";
                          Ok (id, attrs parent)
                      | None =>
                          id ← match fragment with
                               | Some (String _ _ as f) => Ok f
                               | _ => multi_sha256 [Some target; string_of anchor]
                               end;
                          Ok (id, <["id" := AttrStr id]> (attrs parent))
                      end;
          Ok (Some (set_attrs (<["href" := AttrStr ("#" ++ id)]> a) anchor,
                    set_attrs pa parent))
        else Ok (Some (set_attrs a anchor, parent))
  | None => Ok None
  end.

Definition anchor_step (dir : string) (acc : result (bool * node)) (i : node_id)
  : result (bool * node) :=
  '(changed, body) ← acc;
  match lookup i body, parent_of i body with
  | Some anchor, Some parent =>
      r ← fix_anchor dir anchor parent;
      match r with
      | Some (anchor', parent') =>
          let body := update i (set_attrs (attrs anchor')) body in
          let body := update (ident parent) (set_attrs (attrs parent')) body in
          Ok (true, body)
      | None => Ok (changed, body)
      end
  | _, _ => Ok (changed, body)
  end.

(** [DeadLinksFix.__call__(dir, file, doc)] *)
Definition call (dir file : string) (doc : HTMLDocument) : result (bool * HTMLDocument) :=
  '(changed, b) ← foldl (anchor_step dir) (Ok (false, body doc))
                        (map ident (find_all ["a"] (body doc)));
  Ok (changed, with_body doc b).

End Fix.

End DeadLinksFix.

(** ** IndexPageFix *)

Module IndexPageFix.
Import Dom.

Section Fix.

(** [_badges]: a triple of alternative text, image and target, or
    [None] for the triple of [None]s that asks for a line break. *)
Variable _badges : list (option (string * string * string)).

Definition badge_step (parent : node_id) (doc : HTMLDocument)
    (badge : option (string * string * string)) : HTMLDocument :=
  match badge with
  | None =>
      let '(br, doc) := make_tag doc "br" None None ∅ in
      with_body doc (append parent br (body doc))
  | Some (alt, src, href) =>
      let '(anchor, doc) :=
        make_tag doc "a" None None
                 (<["href" := AttrStr href]> (<["target" := AttrStr "_blank"]> ∅)) in
      let doc := with_body doc (append parent anchor (body doc)) in
      let '(img, doc) :=
        make_tag doc "img" None None
                 (<["src" := AttrStr src]> (<["alt" := AttrStr alt]> ∅)) in
      with_body doc (append (ident anchor) img (body doc))
  end.

(** [IndexPageFix.__call__(dir, file, doc)] *)
Definition call (dir file : string) (doc : HTMLDocument) : result (bool * HTMLDocument) :=
  if negb (String.eqb file "index.html") then Ok (false, doc)
  else
    match lookup (article_content doc) (body doc) with
    | None => Raise AttributeError
    | Some parent =>
        match find "img" parent with
        | Some banner =>
            let b := remove (ident banner) (body doc) in
            match lookup (article_content doc) b ≫= find "h1" with
            | None => Raise AttributeError
            | Some h1 =>
                let b := replace_with (ident h1) [banner] b in
                let doc := with_body doc b in
                match _badges with
                | [] => Ok (true, doc)
                | _ =>
                    let '(div, doc) := make_tag doc "div" None (Some "gh-badges") ∅ in
                    let doc := with_body doc (insert_after (ident banner) div (body doc)) in
                    let doc := foldl (badge_step (ident div)) doc _badges in
                    '(_, a) ← html_add_class (attrs banner) ["main_page_banner"];
                    Ok (true, with_body doc (update (ident banner) (set_attrs a) (body doc)))
                end
            end
        | None => Ok (false, doc)
        end
    end.

End Fix.

End IndexPageFix.

(** ** ModifiersFix2 *)

Module ModifiersFix2.
Import Dom.

(** [_modifierClasses], in the order of the alternatives of
    [_modifierRegex]: a modifier and the class of its badge. *)
Definition _modifierClasses : list (string * string) :=
  [("defaulted", "m-info"); ("noexcept", "m-success"); ("constexpr", "m-primary");
   ("pure virtual", "m-warning"); ("virtual", "m-warning"); ("protected", "m-warning");
   ("__vectorcall", "m-special"); ("__stdcall", "m-special"); ("__fastcall", "m-special");
   ("__cdecl", "m-special")].

Definition modifier_class (m : string) : result string :=
  match List.find (fun kv => String.eqb kv.1 m) _modifierClasses with
  | Some kv => Ok kv.2
  | None => Raise (KeyError m)
  end.

Fixpoint span_space (s : string) : nat :=
  match s with
  | String c r => if Py.isspace c then S (span_space r) else O
  | EmptyString => O
  end.

Fixpoint drop_chars (n : nat) (s : string) : string :=
  match n, s with
  | S n', String _ r => drop_chars n' r
  | _, _ => s
  end.

(** The alternative of [_modifierRegex] that is read at the head of [s]. *)
Definition modifier_here (s : string) : option string :=
  fst <$> List.find (fun kv => String.prefix kv.1 s) _modifierClasses.

(** [__expression] matched at the head of [s]: whitespace, a modifier,
    whitespace.  Gives the modifier and the length of the match. *)
Definition match_here (s : string) : option (string * nat) :=
  match span_space s with
  | O => None
  | k =>
      let after := drop_chars k s in
      match modifier_here after with
      | Some m =>
          match span_space (drop_chars (String.length m) after) with
          | O => None
          | j => Some (m, (k + String.length m + j)%nat)
          end
      | None => None
      end
  end.

(** [__expression.sub(...)] with [__substitute]: every match, found
    from left to right past the end of the one before, becomes one
    blank and hands its modifier to [matches].  [skip] counts the
    characters of a match still to pass over. *)
Fixpoint expression_sub (skip : nat) (s : string) : string * list string :=
  match s with
  | EmptyString => (EmptyString, [])
  | String c r =>
      match skip with
      | S skip' => expression_sub skip' r
      | O =>
          match match_here s with
          | Some (m, n) =>
              let '(out, matches) := expression_sub (pred n) r in
              (String " " out, m :: matches)
          | None =>
              let '(out, matches) := expression_sub O r in
              (String c out, matches)
          end
      end
  end.

(** One turn of [for match in matches]: the badge goes before
    [lastInserted], or at the end of [end_] when there is none, and a
    blank after the badge. *)
Definition insert_badge (end_ : node_id) (acc : result (HTMLDocument * option node_id))
    (match_ : string) : result (HTMLDocument * option node_id) :=
  '(doc, lastInserted) ← acc;
  class_ ← modifier_class match_;
  let '(tag, doc) := make_tag doc "span" (Some match_)
                              (Some ("dox-injected m-label " ++ class_)) ∅ in
  let b := match lastInserted with
           | Some before => insert_before before tag (body doc)
           | None => append end_ tag (body doc)
           end in
  let b := insert_after (ident tag) (NavigableString (next_id doc) " ") b in
  Ok (with_next_id (with_body doc b) (S (next_id doc)), Some (ident tag)).

(** The badges for [matches], [end_] being the last child of the
    signature. *)
Definition insert_badges (doc : HTMLDocument) (end_ : node_id) (matches : list string)
  : result HTMLDocument :=
  match lookup end_ (body doc) with
  | Some (NavigableString _ _) => Raise AttributeError
  | found =>
      let lastInserted := ident <$> (found ≫= find "span") in
      fst <$> foldl (insert_badge end_) (Ok (doc, lastInserted)) matches
  end.

Section Fix.

Variable html5lib : string -> list markup.

(** [str(tag)], the markup of a node as the page writes it; [None] is
    written [None]. *)
Variable str : option node -> string.

(** [tag.select_one('span.' + class_)]: the first span below the tag
    that has the class. *)
Definition has_class (class_ : string) (t : node) : bool :=
  match attrs t !! "class" with
  | Some (AttrList l) => mem class_ l
  | Some (AttrStr s) => mem class_ (Py.split s)
  | None => false
  end.

Definition select_span (class_ : string) (t : node) : option node :=
  List.find (fun c => (named "span" c && has_class class_ c)%bool) (descendants t).

(** The body of [for f in funcs]. *)
Definition fix_function (acc : result (bool * HTMLDocument)) (f : option node_id)
  : result (bool * HTMLDocument) :=
  '(changed, doc) ← acc;
  match f ≫= (fun i => lookup i (body doc)) with
  | None => Raise AttributeError
  | Some f =>
      let bumper := select_span "m-doc-wrap-bumper" f in
      match select_span "m-doc-wrap" f with
      | None => Raise AttributeError
      | Some wrap =>
          match List.last (Some <$> contents wrap) None with
          | None => Raise IndexError
          | Some end_ =>
              let '(bumperContent, matches) := expression_sub O (str bumper) in
              match matches with
              | [] => Ok (changed, doc)
              | _ =>
                  match bumper with
                  | None => Raise AttributeError
                  | Some bumper =>
                      let '(_, doc) := html_replace_tag html5lib doc (ident bumper) bumperContent in
                      doc ← insert_badges doc (ident end_) matches;
                      Ok (true, doc)
                  end
              end
          end
      end
  end.

Definition has_attr (key : string) (t : node) : bool :=
  match t with
  | Tag _ _ a _ => bool_decide (is_Some (a !! key))
  | NavigableString _ _ => false
  end.

Definition id_is (v : string) (t : node) : bool :=
  match attrs t !! "id" with
  | Some (AttrStr s) => String.eqb s v
  | _ => false
  end.

(** [str(s.h2.string) == 'Function documentation'] *)
Definition is_function_documentation (s : node) : result bool :=
  h2 ← child_named "h2" s;
  Ok (match string_of h2 with
      | Some t => String.eqb t "Function documentation"
      | None => false
      end).

Fixpoint first_section (sections : list node) : result (option node) :=
  match sections with
  | [] => Ok None
  | s :: rest =>
      b ← is_function_documentation s;
      if (b : bool) then Ok (Some s) else first_section rest
  end.

(** [ModifiersFix2.__call__(dir, file, doc)].  The call
    [doc.find_all_from_sections(section=False)] asks for the sections
    of the article whose [id] is the text [section]. *)
Definition call (dir file : string) (doc : HTMLDocument) : result (bool * HTMLDocument) :=
  match lookup (article_content doc) (body doc) with
  | None => Raise AttributeError
  | Some article =>
      let sections := List.filter (id_is "section") (find_children ["section"] article) in
      section ← first_section sections;
      match section with
      | None => Ok (false, doc)
      | Some section =>
          let funcs := List.filter (has_attr "id") (descendants section) in
          let funcs := map (fun f => ident <$> find "h3" f) funcs in
          foldl fix_function (Ok (false, doc)) funcs
      end
  end.

End Fix.

End ModifiersFix2.

(** ** AutoDocLinksFix *)

Module AutoDocLinksFix.
Import Dom.

Definition __allowedNames : list string :=
  ["dd"; "p"; "dt"; "h3"; "td"; "div"; "figcaption"].

(** [html.escape(s, quote=False)] *)
Fixpoint html_escape (s : string) : string :=
  match s with
  | EmptyString => EmptyString
  | String c r =>
      let n := Py.ord c in
      if Nat.eqb n 38 then "&amp;" ++ html_escape r
      else if Nat.eqb n 60 then "&lt;" ++ html_escape r
      else if Nat.eqb n 62 then "&gt;" ++ html_escape r
      else String c (html_escape r)
  end.

Definition dq : string := String (ascii_of_nat 34) EmptyString.

(** [__substitute(m, uri)], [m0] being the text of the match. *)
Definition substitute (uri m0 : string) : string :=
  let external := Py.startswith uri "http" in
  "<a href=" ++ dq ++ uri ++ dq ++ " class=" ++ dq ++ "m-doc dox-injected"
  ++ (if external then " dox-external" else EmptyString) ++ dq
  ++ (if external then " target=" ++ dq ++ "_blank" ++ dq else EmptyString)
  ++ ">" ++ m0 ++ "</a>".

(** [_m_doc_anchor_tags(tag)] *)
Definition _m_doc_anchor_tags (tag : node) : bool :=
  (named "a" tag
   && match attrs tag !! "class" with
      | Some (AttrList l) => (mem "m-doc" l || mem "m-doc-self" l)%bool
      | Some (AttrStr s) => (is_substring "m-doc" s || is_substring "m-doc-self" s)%bool
      | None => false
      end)%bool.

(** The filter of the searches: no hyperlink between the node and
    [cutoff]. *)
Definition outside_links (cutoff : option node_id) (t : located) : bool :=
  match html_find_parent t.2 ["a"] cutoff with
  | None => true
  | Some _ => false
  end.

(** The state of the second loop: the document, the list [strings],
    the index [i] and [changed]. *)
Record scan_state : Type := {
  scan_doc : HTMLDocument;
  strings : list located;
  scan_i : nat;
  scan_changed : bool
}.

Section Fix.

(** A compiled expression of [__expressions], with what the fixer
    asks of it: [RegexReplacer(expr, handler, value)], giving the text
    and whether the handler was called on a match, and
    [expr.fullmatch(value)]. *)
Variable pattern : Type.
Variable regex_replace : pattern -> (string -> string) -> string -> string * bool.
Variable fullmatch : pattern -> string -> bool.
Variable __expressions : list (pattern * string).
Variable html5lib : string -> list markup.

(** The first loop: the links that exist are pointed at the target of
    the first expression that their text matches. *)
Definition relink (link : node) : result (option node) :=
  let s := get_text link in
  match List.find (fun eu =>
                     (match attrs link !! "href" with
                      | Some (AttrStr h) => negb (String.eqb h eu.2)
                      | _ => true
                      end && fullmatch eu.1 s)%bool) __expressions with
  | Some (_, uri) =>
      a ← html_set_class (<["href" := AttrStr uri]> (attrs link)) ["m-doc"; "dox-injected"];
      '(_, a) ← (if Py.startswith uri "http" then html_add_class a ["dox-external"]
                 else Ok (false, a));
      Ok (Some (set_attrs a link))
  | None => Ok None
  end.

Definition relink_step (acc : result (bool * node)) (i : node_id) : result (bool * node) :=
  '(changed, body) ← acc;
  match lookup i body with
  | Some link =>
      r ← relink link;
      match r with
      | Some link' => Ok (true, update i (set_attrs (attrs link')) body)
      | None => Ok (changed, body)
      end
  | None => Ok (changed, body)
  end.

(** The list [strings] as the second loop starts with it. *)
Definition initial_strings (doc : HTMLDocument) : list located :=
  match lookup (article_content doc) (body doc) with
  | Some article =>
      let anc := chain_of (article_content doc) (body doc) in
      let tags := html_shallow_search anc article __allowedNames
                                      (outside_links (Some (article_content doc))) in
      flat_map (fun tag => string_descendants tag.2 tag.1 (outside_links (Some (ident tag.1))))
               tags
  | None => []
  end.

(** The strings of the new nodes that go back on the list. *)
Definition requeue (anc : chain) (new_tags : list node) : result (list located) :=
  (fun l => List.concat l) <$> traverse (fun tag =>
                         html_string_descendants anc tag (outside_links (fst <$> head anc)))
                      new_tags.

Definition first_isspace (s : string) : bool :=
  match s with
  | String c _ => Py.isspace c
  | EmptyString => false
  end.

(** One turn of [while i < len(strings)] for the expression [expr] and
    its target; [None] when the loop is over. *)
Definition scan_step (expr : pattern) (uri : string) (st : scan_state)
  : result (option scan_state) :=
  match strings st !! scan_i st with
  | None => Ok None
  | Some (string, anc) =>
      let '(repl_str, fired) :=
        regex_replace expr (substitute uri) (html_escape (get_text string)) in
      if (fired : bool) then
        let begins_with_ws := first_isspace repl_str in
        let '(new_tags, doc) := html_replace_tag html5lib (scan_doc st) (ident string) repl_str in
        doc ← (if begins_with_ws then
                 match new_tags with
                 | [] => Raise IndexError
                 | t0 :: _ =>
                     match string_of t0 with
                     | Some s0 =>
                         if first_isspace s0 then Ok doc
                         else
                           let blank := NavigableString (next_id doc) " " in
                           Ok (with_next_id
                                 (with_body doc (insert_before (ident t0) blank (body doc)))
                                 (S (next_id doc)))
                     | None => Ok doc
                     end
                 end
               else Ok doc);
        back ← requeue anc new_tags;
        Ok (Some {| scan_doc := doc;
                    strings := (delete (scan_i st) (strings st) ++ back)%list;
                    scan_i := scan_i st;
                    scan_changed := true |})
      else
        Ok (Some {| scan_doc := scan_doc st; strings := strings st;
                    scan_i := S (scan_i st); scan_changed := scan_changed st |})
  end.

(** The [while] loop, for at most [fuel] turns: [None] when they do
    not suffice. *)
Fixpoint scan_loop (fuel : nat) (expr : pattern) (uri : string) (st : scan_state)
  : result (option scan_state) :=
  match fuel with
  | O => Ok None
  | S fuel' =>
      r ← scan_step expr uri st;
      match r with
      | None => Ok (Some st)
      | Some st' => scan_loop fuel' expr uri st'
      end
  end.

Definition restart (st : scan_state) : scan_state :=
  {| scan_doc := scan_doc st; strings := strings st; scan_i := O;
     scan_changed := scan_changed st |}.

(** [for expr, uri in self.__expressions] *)
Fixpoint scan_all (fuel : nat) (exprs : list (pattern * string)) (st : scan_state)
  : result (option scan_state) :=
  match exprs with
  | [] => Ok (Some st)
  | (expr, uri) :: rest =>
      r ← scan_loop fuel expr uri (restart st);
      match r with
      | None => Ok None
      | Some st' => scan_all fuel rest st'
      end
  end.

(** [AutoDocLinksFix.__call__(dir, file, doc)], each [while] loop
    being given [fuel] turns. *)
Definition call (fuel : nat) (dir file : string) (doc : HTMLDocument)
  : result (option (bool * HTMLDocument)) :=
  match lookup (article_content doc) (body doc) with
  | None => Raise AttributeError
  | Some article =>
      let existing_doc_links := map ident (List.filter _m_doc_anchor_tags (descendants article)) in
      '(changed, b) ← foldl relink_step (Ok (false, body doc)) existing_doc_links;
      let doc := with_body doc b in
      match scan_all fuel __expressions
              {| scan_doc := doc; strings := initial_strings doc; scan_i := O;
                 scan_changed := changed |} with
      | Ok (Some st) => Ok (Some (scan_changed st, scan_doc st))
      | Ok None => Ok None
      | Raise e => Raise e
      end
  end.

End Fix.

End AutoDocLinksFix.

(** ** The pipeline: [postprocess_file] *)

Module Pipeline.
Import Dom.

(** What the run of a worker leaves behind, in order: the line it
    prints on entry, the return of a fixer (by its position in the
    sequence, with the flag it gave), the page written back, and the
    exception that the handler prints. *)
Inductive event : Type :=
| Printed (file : string)
| Returned (position : nat) (changed : bool)
| Flushed (path : string) (page : node)
| Failed (e : exn).

(** The state the workers share: the flag [_thread_error], the pages on
    disk by path, which paths can be opened for writing, and the log.
    A page on disk is kept as the tree the parser reads from it. *)
Record world : Type := {
  thread_error : bool;
  files : gmap string node;
  writable : string -> bool;
  log : list event
}.

(** A fixer: [fix(dir, file, doc)], giving [changed] and the document
    as the call leaves it. *)
Definition fixer : Type := string -> string -> HTMLDocument -> result (bool * HTMLDocument).

(** [HTMLDocument(path)] *)
Definition open_document (w : world) (path : string) : result HTMLDocument :=
  match files w !! path with
  | Some page => HTMLDocument_init path page
  | None => Raise OSError
  end.

(** The loop over [fixes] from position [k] on, with the log of the
    returns; it stops at the first fixer that raises. *)
Fixpoint run_fixes (dir file : string) (fixes : list fixer) (k : nat) (changed : bool)
    (doc : HTMLDocument) (calls : list event) : bool * result HTMLDocument * list event :=
  match fixes with
  | [] => (changed, Ok doc, calls)
  | fix_ :: rest =>
      match fix_ dir file doc with
      | Ok (true, doc') =>
          run_fixes dir file rest (S k) true (doc_smooth doc') (calls ++ [Returned k true])%list
      | Ok (false, doc') =>
          run_fixes dir file rest (S k) changed doc' (calls ++ [Returned k false])%list
      | Raise e => (changed, Raise e, calls)
      end
  end.

Definition add_log (w : world) (evs : list event) : world :=
  {| thread_error := thread_error w; files := files w; writable := writable w;
     log := (log w ++ evs)%list |}.

(** The handler of [postprocess_file]: the exception is printed and the
    flag set. *)
Definition fail (w : world) (evs : list event) (e : exn) : world :=
  {| thread_error := true; files := files w; writable := writable w;
     log := (log w ++ evs ++ [Failed e])%list |}.

(** [doc.flush()]: the page goes to the path the constructor stored,
    an attribute private to the document that no fixer writes. *)
Definition flush (w : world) (evs : list event) (path : string) (page : node) : world :=
  if writable w path then
    {| thread_error := thread_error w;
       files := <[path := page]> (files w);
       writable := writable w;
       log := (log w ++ evs ++ [Flushed path page])%list |}
  else fail w evs OSError.

(** [postprocess_file(dir, file, fixes)] *)
Definition postprocess_file (dir file : string) (fixes : list fixer) (w : world)
  : bool * world :=
  if thread_error w then (false, w)
  else
    let path := DeadLinksFix.path_join dir file in
    match open_document w path with
    | Raise e => (false, fail w [Printed file] e)
    | Ok doc =>
        match run_fixes dir (Py.lower file) fixes 0 false doc [Printed file] with
        | (changed, Ok doc, calls) =>
            if changed then (true, flush w calls path (body doc)) else (false, add_log w calls)
        | (changed, Raise e, calls) => (changed, fail w calls e)
        end
    end.

(** The jobs of [main] run one after the other. *)
Definition postprocess_all (fixes : list fixer) (jobs : list (string * string)) (w : world)
  : list bool * world :=
  foldl (fun acc job =>
           let '(results, w) := acc in
           let '(changed, w) := postprocess_file job.1 job.2 fixes w in
           ((results ++ [changed])%list, w))
        ([], w) jobs.

End Pipeline.

(** * Properties *)

Example int_examples :
  map (fun s => (Py.int s 16, Py.int s 10))
      ["48"; "0x48"; " 48 "; "-5"; "1_0"; "_1"; "1_"; "1__0"; "0x_1f"; "0x"; "";
       "-0x5"; "0x-5"; "0_1"; "0X_f"; "0b1"; "1 2"; "+0x_a_b"; "0x__1"; "+"]
  = [(Some 72, Some 48); (Some 72, None); (Some 72, Some 48); (Some (-5), Some (-5));
     (Some 16, Some 10); (None, None); (None, None); (None, None); (Some 31, None);
     (None, None); (None, None); (Some (-5), None); (None, None); (Some 1, Some 1);
     (Some 15, None); (Some 177, None); (None, None); (Some 171, None); (None, None);
     (None, None)].
Proof. reflexivity. Qed.

Example format_X_examples :
  map Py.format_X [0; 72; 255; 1114111; -5; 128512] = ["0"; "48"; "FF"; "10FFFF"; "-5"; "1F600"].
Proof. reflexivity. Qed.

Example strip_examples :
  (Py.strip "  a b  ", Py.strip "", Py.strip "   ", Py.split " add  x y ", Py.lower "SunDae_1")
  = ("a b", "", "", ["add"; "x"; "y"], "sundae_1").
Proof. reflexivity. Qed.

(** ** The bracket shortcodes *)

Section CustomTagsFacts.
Import CustomTagsFix.

Variable set_order : list Z -> list Z.

Definition fresh : cls_state := {| cls_emojis := None; cls_emoji_codepoints := None |}.

Lemma tag_content_strip (raw : string) :
  match Some raw with
  | Some (String _ _ as g) => Py.strip g
  | _ => EmptyString
  end = Py.strip raw.
Proof. destruct raw; reflexivity. Qed.

(** The emoji branch reads the payload only through its stripped,
    lower-case form. *)
Lemma emoji_branch (file : list (string * json)) (st : cls_state) (m1 raw : string)
    (out : list event) :
  Py.lower m1 = "emoji" ->
  single_tags_substitute set_order file st m1 (Some raw) out =
    match Py.lower (Py.strip raw) with
    | EmptyString => Ok (EmptyString, out, st)
    | X => '(emojis, cps, st') ← load_emojis set_order file st;
           r ← emoji_lookup emojis cps X;
           Ok (r, out, st')
    end.
Proof.
  intros Hname. unfold single_tags_substitute. rewrite tag_content_strip, Hname.
  destruct (Py.lower (Py.strip raw)); reflexivity.
Qed.

Lemma emoji_literal_some cps X base cp :
  Py.int X base = Some cp -> cp ∈ cps -> emoji_literal cps X base = Some cp.
Proof.
  intros Hint Hin. unfold emoji_literal. rewrite Hint.
  destruct (decide (cp ∈ cps)); [reflexivity|contradiction].
Qed.

Lemma add_aliases_sundae (e e' : gmap string json) :
  add_aliases e = Ok e' -> e' !! "sundae" = e' !! "ice_cream" /\ is_Some (e' !! "ice_cream").
Proof.
  unfold add_aliases, aliases. cbn [foldl fst snd]. intros H.
  apply bind_ok in H as (e1 & H1 & H2).
  apply bind_ok in H1 as (e0 & [= <-] & H1).
  match type of H1 with
  | match ?x with _ => _ end = _ => destruct x as [v|] eqn:Hice; [|discriminate]
  end.
  injection H1 as <-. rewrite lookup_insert_ne in H2 by done.
  match type of H2 with
  | match ?x with _ => _ end = _ => destruct x as [v'|] eqn:Hinfo; [|discriminate]
  end.
  injection H2 as <-.
  rewrite (lookup_insert_ne _ "info" "sundae"), (lookup_insert_ne _ "info" "ice_cream"),
    (lookup_insert_ne _ "sundae" "ice_cream"), lookup_insert_eq, Hice by done.
  eauto.
Qed.

(** What the processed table holds besides the emojis. *)
Lemma process_emojis_keys (file : list (string * json)) (e : gmap string json) (cps : gset Z) :
  process_emojis set_order file = Ok (e, cps) ->
  e !! "sundae" = e !! "ice_cream" /\ is_Some (e !! "ice_cream")
  /\ e !! "__processed" = Some (JBool true)
  /\ exists added, cps = list_to_set added
       /\ e !! "__codepoints" = Some (JList (JNum <$> set_order added)).
Proof.
  unfold process_emojis. intros H.
  apply bind_ok in H as ([e0 added] & _ & H). simpl in H.
  apply bind_ok in H as (e1 & Hal & H). injection H as <- <-.
  apply add_aliases_sundae in Hal as [Heq Hsome].
  rewrite (lookup_insert_ne _ "__processed" "sundae"),
    (lookup_insert_ne _ "__processed" "ice_cream"),
    (lookup_insert_ne _ "__processed" "__codepoints"),
    (lookup_insert_ne _ "__codepoints" "sundae"),
    (lookup_insert_ne _ "__codepoints" "ice_cream"), !lookup_insert_eq by done.
  repeat split; [assumption..|]. exists added. auto.
Qed.

Lemma emoji_lookup_alias (e : gmap string json) (cps : gset Z) :
  e !! "sundae" = e !! "ice_cream" ->
  emoji_lookup e cps "sundae" = emoji_lookup e cps "ice_cream".
Proof.
  intros Heq. unfold emoji_lookup, emoji_literal.
  change (Py.int "sundae" 16) with (@None Z). change (Py.int "sundae" 10) with (@None Z).
  change (Py.int "ice_cream" 16) with (@None Z). change (Py.int "ice_cream" 10) with (@None Z).
  rewrite Heq. reflexivity.
Qed.

Lemma codepoints_of_numbers (l : list Z) (acc : gset Z) :
  foldl (fun acc v =>
           cps ← acc;
           match v with
           | JNum z => Ok ({[z]} ∪ cps)
           | JBool b => Ok ({[if b then 1 else 0]} ∪ cps)
           | JStr _ | JNull => Ok cps
           | JList _ | JObject _ => Raise TypeError
           end) (Ok acc) (JNum <$> l) = Ok (list_to_set l ∪ acc).
Proof.
  revert acc. induction l as [|z l IH]; intros acc; simpl.
  - f_equal. set_solver.
  - rewrite IH. f_equal. set_solver.
Qed.

Lemma load_fresh (file : list (string * json)) (e : gmap string json) (cps : gset Z) :
  (list_to_map file : gmap string json) !! "__processed" = None ->
  process_emojis set_order file = Ok (e, cps) ->
  load_emojis set_order file fresh
  = Ok (e, cps, {| cls_emojis := Some e; cls_emoji_codepoints := Some cps |}).
Proof.
  intros Hraw Hproc. unfold load_emojis, load_table, fresh. cbn [cls_emojis].
  cbv zeta. rewrite Hraw, Hproc. reflexivity.
Qed.

(** A fresh load of the downloaded table either fails or leaves the
    processed table. *)
Lemma load_fresh_inv (file : list (string * json)) (e : gmap string json) (cps : gset Z)
    (st' : cls_state) :
  (list_to_map file : gmap string json) !! "__processed" = None ->
  load_emojis set_order file fresh = Ok (e, cps, st') ->
  process_emojis set_order file = Ok (e, cps).
Proof.
  intros Hraw. unfold load_emojis, load_table, fresh. cbn [cls_emojis]. cbv zeta.
  rewrite Hraw. destruct (process_emojis set_order file) as [[e0 cps0]|err]; [|discriminate].
  cbn. intros [= <- <- _]. reflexivity.
Qed.

(** C5: the table that the emoji branch builds holds two bookkeeping
    keys beside the emojis, and the lookup does not tell them from
    shortcodes.  For the table as downloaded (no [__processed] key in
    it, so that [__processed] is no emoji a page could name) and the
    class state before the first use, whenever the table loads,
    [[emoji __processed]] in any letter case raises [TypeError]: the
    entry is [True], which has no first element.  The claim has an
    unknown shortcode give the empty text and no error. *)
Theorem emoji_bookkeeping_key_raises (file : list (string * json)) (m1 raw : string)
    (out : list event) :
  Py.lower m1 = "emoji" ->
  Py.lower (Py.strip raw) = "__processed" ->
  (list_to_map file : gmap string json) !! "__processed" = None ->
  is_ok (load_emojis set_order file fresh) = true ->
  single_tags_substitute set_order file fresh m1 (Some raw) out = Raise TypeError.
Proof.
  intros Hname HX Hraw Hload.
  destruct (load_emojis set_order file fresh) as [[[e cps] st']|err] eqn:Hl; [|discriminate].
  pose proof (load_fresh_inv _ _ _ _ Hraw Hl) as Hproc.
  apply process_emojis_keys in Hproc as (_ & _ & Hp & _).
  rewrite emoji_branch by exact Hname. rewrite HX. cbv iota. rewrite Hl.
  cbn [mbind result_bind rbind]. unfold emoji_lookup, emoji_literal.
  change (Py.int "__processed" 16) with (@None Z).
  change (Py.int "__processed" 10) with (@None Z).
  rewrite Hp. reflexivity.
Qed.

(** The emoji branch on a loaded table, case by case: a payload that
    reads as a hexadecimal number which is a known code point gives
    the reference to that code point, and so does a decimal reading
    when the hexadecimal one is not a known code point; otherwise the
    payload is looked up in the table, whatever the letter case it was
    written in, and an entry [[cp, uri]] gives the reference to [cp];
    a payload that is no key of the table gives the empty text and no
    error. *)
Lemma emoji_resolution (file : list (string * json)) (st st' : cls_state)
    (emojis : gmap string json) (cps : gset Z) (m1 raw : string) (out : list event) :
  Py.lower m1 = "emoji" ->
  Py.lower (Py.strip raw) <> EmptyString ->
  load_emojis set_order file st = Ok (emojis, cps, st') ->
  let X := Py.lower (Py.strip raw) in
  let substituted := single_tags_substitute set_order file st m1 (Some raw) out in
  (forall cp, Py.int X 16 = Some cp -> cp ∈ cps ->
     substituted = Ok ("&#x" ++ Py.format_X cp ++ ";&#xFE0F;", out, st'))
  /\ (forall cp, emoji_literal cps X 16 = None -> Py.int X 10 = Some cp -> cp ∈ cps ->
        substituted = Ok ("&#x" ++ Py.format_X cp ++ ";&#xFE0F;", out, st'))
  /\ (forall cp rest, emoji_literal cps X 16 = None -> emoji_literal cps X 10 = None ->
        emojis !! X = Some (JList (JNum cp :: rest)) ->
        substituted = Ok ("&#x" ++ Py.format_X cp ++ ";&#xFE0F;", out, st'))
  /\ (emoji_literal cps X 16 = None -> emoji_literal cps X 10 = None ->
        emojis !! X = None -> substituted = Ok (EmptyString, out, st'))
  /\ (forall m1' raw', Py.lower m1' = "emoji" -> Py.lower (Py.strip raw') = X ->
        single_tags_substitute set_order file st m1' (Some raw') out = substituted).
Proof.
  intros Hname HX Hload X substituted.
  assert (Hsub : substituted = (r ← emoji_lookup emojis cps X; Ok (r, out, st'))).
  { unfold substituted. rewrite emoji_branch by exact Hname. fold X.
    destruct X as [|c X'] eqn:EX; [done|]. rewrite Hload. reflexivity. }
  repeat split.
  - intros cp Hint Hin. rewrite Hsub. unfold emoji_lookup.
    rewrite (emoji_literal_some _ _ _ _ Hint Hin). reflexivity.
  - intros cp H16 Hint Hin. rewrite Hsub. unfold emoji_lookup.
    rewrite H16, (emoji_literal_some _ _ _ _ Hint Hin). reflexivity.
  - intros cp rest H16 H10 Hlook. rewrite Hsub. unfold emoji_lookup.
    rewrite H16, H10, Hlook. reflexivity.
  - intros H16 H10 Hlook. rewrite Hsub. unfold emoji_lookup.
    rewrite H16, H10, Hlook. reflexivity.
  - intros m1' raw' Hname' HX'. unfold substituted.
    rewrite !emoji_branch by assumption. rewrite HX'. reflexivity.
Qed.

Lemma process_entries_snoc (raw : list (string * json)) (kv : string * json) :
  process_entries (raw ++ [kv]) = entry_step (process_entries raw) kv.
Proof. unfold process_entries. rewrite foldl_app. reflexivity. Qed.

(** An item of the download whose URI names a code point is in the
    table under its key, and its code point is added to the set. *)
Lemma process_entries_lookup (raw : list (string * json)) :
  forall e added, NoDup raw.*1 -> process_entries raw = Ok (e, added) ->
  forall k uri h cp, (k, JStr uri) ∈ raw -> emoji_uri uri = Some h -> Py.int h 16 = Some cp ->
    e !! k = Some (JList [JNum cp; JStr uri]) /\ cp ∈ added.
Proof.
  induction raw as [|kv raw IH] using rev_ind; intros e added Hnd Hproc k uri h cp Hin Huri Hint.
  - inversion Hin.
  - rewrite process_entries_snoc in Hproc.
    destruct (process_entries raw) as [[e0 added0]|err] eqn:H0; [|discriminate].
    rewrite fmap_app in Hnd. apply NoDup_app in Hnd as (Hnd & Hfresh & _).
    apply elem_of_app in Hin as [Hin|Hin].
    + destruct (IH e0 added0 Hnd eq_refl k uri h cp Hin Huri Hint) as [Hk Hc].
      assert (Hne : kv.1 <> k).
      { intros <-. apply (Hfresh kv.1).
        - apply (list_elem_of_fmap_2 fst) in Hin. exact Hin.
        - simpl. left. }
      unfold entry_step in Hproc. cbn [mbind result_bind rbind] in Hproc.
      destruct kv.2 as [| | |u| |]; try discriminate.
      destruct (emoji_uri u) as [h'|]; [|injection Hproc as <- <-; auto].
      destruct (Py.int h' 16); [|discriminate].
      injection Hproc as <- <-. rewrite lookup_insert_ne by exact Hne.
      split; [exact Hk|]. apply elem_of_app. auto.
    + apply list_elem_of_singleton in Hin. subst kv.
      unfold entry_step in Hproc. cbn [mbind result_bind rbind fst snd] in Hproc.
      rewrite Huri, Hint in Hproc. injection Hproc as <- <-.
      rewrite lookup_insert_eq. split; [reflexivity|]. apply elem_of_app. right. left.
Qed.

Lemma add_aliases_frame (e e' : gmap string json) (k : string) :
  add_aliases e = Ok e' -> k <> "sundae" -> k <> "info" -> e' !! k = e !! k.
Proof.
  unfold add_aliases, aliases. cbn [foldl fst snd]. intros H Hs Hi.
  apply bind_ok in H as (e1 & H1 & H2).
  apply bind_ok in H1 as (e0 & [= <-] & H1).
  match type of H1 with
  | match ?x with _ => _ end = _ => destruct x as [v|]; [|discriminate]
  end.
  injection H1 as <-.
  match type of H2 with
  | match ?x with _ => _ end = _ => destruct x as [v'|]; [|discriminate]
  end.
  injection H2 as <-. rewrite !lookup_insert_ne by congruence. reflexivity.
Qed.

Lemma process_emojis_entry (file : list (string * json)) (e : gmap string json) (cps : gset Z)
    (k uri h : string) (cp : Z) :
  NoDup file.*1 ->
  process_emojis set_order file = Ok (e, cps) ->
  (k, JStr uri) ∈ file -> emoji_uri uri = Some h -> Py.int h 16 = Some cp ->
  k <> "sundae" -> k <> "info" -> k <> "__codepoints" -> k <> "__processed" ->
  e !! k = Some (JList [JNum cp; JStr uri]) /\ cp ∈ cps.
Proof.
  intros Hnd Hproc Hin Huri Hint H1 H2 H3 H4. unfold process_emojis in Hproc.
  apply bind_ok in Hproc as ([e0 added] & H0 & H). simpl in H.
  apply bind_ok in H as (e1 & Hal & H). injection H as <- <-.
  destruct (process_entries_lookup _ _ _ Hnd H0 _ _ _ _ Hin Huri Hint) as [Hk Hc].
  rewrite !lookup_insert_ne by congruence.
  rewrite (add_aliases_frame _ _ _ Hal H1 H2). split; [exact Hk|].
  apply elem_of_list_to_set. exact Hc.
Qed.

(** In the table built from the download, [sundae] stands for
    [ice_cream]: on the first use of the emoji branch, when the table
    loads, both shortcodes give the reference to the code point that
    the URI of [ice_cream] names. *)
Lemma emoji_alias (file : list (string * json)) (uri h : string) (cp : Z) (out : list event) :
  NoDup file.*1 ->
  (list_to_map file : gmap string json) !! "__processed" = None ->
  ("ice_cream", JStr uri) ∈ file -> emoji_uri uri = Some h -> Py.int h 16 = Some cp ->
  is_ok (load_emojis set_order file fresh) = true ->
  exists st',
    single_tags_substitute set_order file fresh "emoji" (Some " sundae") out
    = Ok ("&#x" ++ Py.format_X cp ++ ";&#xFE0F;", out, st')
    /\ single_tags_substitute set_order file fresh "emoji" (Some " ice_cream") out
       = Ok ("&#x" ++ Py.format_X cp ++ ";&#xFE0F;", out, st').
Proof.
  intros Hnd Hraw Hin Huri Hint Hok.
  destruct (load_emojis set_order file fresh) as [[[e cps] st']|err] eqn:Hload; [|discriminate].
  pose proof (load_fresh_inv _ _ _ _ Hraw Hload) as Hproc.
  pose proof (process_emojis_keys _ _ _ Hproc) as (Heq & _).
  destruct (process_emojis_entry _ _ _ _ _ _ _ Hnd Hproc Hin Huri Hint) as [Hice _];
    [discriminate..|].
  exists st'. rewrite !emoji_branch by reflexivity.
  change (Py.lower (Py.strip " sundae")) with "sundae".
  change (Py.lower (Py.strip " ice_cream")) with "ice_cream".
  cbv iota. rewrite Hload. cbn [mbind result_bind rbind].
  rewrite (emoji_lookup_alias _ _ Heq). unfold emoji_lookup, emoji_literal.
  change (Py.int "ice_cream" 16) with (@None Z). change (Py.int "ice_cream" 10) with (@None Z).
  rewrite Hice. split; reflexivity.
Qed.

Lemma entity_numeric (X : string) (cp : Z) :
  X <> EmptyString -> Py.int X 16 = Some cp -> cp <= 1114111 ->
  entity X = "&#x" ++ Py.format_X cp ++ ";".
Proof.
  intros HX Hint Hle. unfold entity. destruct X as [|c X]; [done|].
  rewrite Hint. destruct (Z.leb_spec cp 1114111); [reflexivity|lia].
Qed.

Lemma entity_named (X : string) :
  X <> EmptyString ->
  (Py.int X 16 = None \/ exists cp, Py.int X 16 = Some cp /\ 1114111 < cp) ->
  entity X = "&" ++ X ++ ";".
Proof.
  intros HX H. unfold entity. destruct X as [|c X]; [done|].
  destruct H as [->|(cp & -> & Hlt)]; [reflexivity|].
  destruct (Z.leb_spec cp 1114111); [lia|reflexivity].
Qed.

(** C6: for every [[entity X]] or [[htmlentity X]] shortcode with a
    payload: when X reads as a hexadecimal number that is at most
    0x10FFFF, the result is the numeric character reference of that
    code point (the payload [48] gives the reference of code point
    0x48); otherwise the result is the named reference [&X;]. *)
Theorem entity_resolution (file : list (string * json)) (st : cls_state)
    (m1 raw : string) (out : list event) :
  Py.lower m1 = "entity" \/ Py.lower m1 = "htmlentity" ->
  Py.strip raw <> EmptyString ->
  exists r,
    single_tags_substitute set_order file st m1 (Some raw) out = Ok (r, out, st)
    /\ (forall cp, Py.int (Py.strip raw) 16 = Some cp -> cp <= 1114111 ->
          r = "&#x" ++ Py.format_X cp ++ ";")
    /\ (Py.int (Py.strip raw) 16 = None
        \/ (exists cp, Py.int (Py.strip raw) 16 = Some cp /\ 1114111 < cp) ->
          r = "&" ++ Py.strip raw ++ ";")
    /\ single_tags_substitute set_order file st "entity" (Some " 48") out
       = Ok ("&#x48;", out, st).
Proof.
  intros Hname HX. exists (entity (Py.strip raw)). repeat split.
  - unfold single_tags_substitute. rewrite tag_content_strip.
    destruct Hname as [-> | ->]; reflexivity.
  - intros cp Hint Hle. apply entity_numeric; assumption.
  - intros H. apply entity_named; assumption.
Qed.

End CustomTagsFacts.

Lemma entity_resolution_witness :
  exists r,
    CustomTagsFix.single_tags_substitute (fun added => added) [] fresh
                                         "HtmlEntity" (Some " nbsp ") [] =
      Ok (r, [], fresh)
    /\ r = "&nbsp;".
Proof.
  destruct (entity_resolution (fun added => added) [] fresh "HtmlEntity" " nbsp " [])
    as (r & Hr & _ & Hnamed & _).
  - right. reflexivity.
  - vm_compute. discriminate.
  - exists r. split; [exact Hr|]. apply Hnamed. left. reflexivity.
Defined.

(** The table of the GitHub API, three of its entries. *)
Definition github_emojis : list (string * json) :=
  [("ice_cream", JStr "https://github.githubassets.com/images/icons/emoji/unicode/1f368.png?v8");
   ("information_source",
    JStr "https://github.githubassets.com/images/icons/emoji/unicode/2139.png?v8");
   ("octocat", JStr "https://github.githubassets.com/images/icons/emoji/octocat.png?v8")].

Lemma emoji_bookkeeping_key_raises_witness :
  CustomTagsFix.single_tags_substitute (@rev Z) github_emojis fresh "Emoji" (Some " __Processed ") []
  = Raise TypeError.
Proof.
  apply (emoji_bookkeeping_key_raises (@rev Z) github_emojis "Emoji" " __Processed " []);
    vm_compute; reflexivity.
Defined.

Lemma emoji_resolution_witness :
  let loaded := {| CustomTagsFix.cls_emojis := Some ∅;
                   CustomTagsFix.cls_emoji_codepoints := Some {[127848]} |} in
  CustomTagsFix.single_tags_substitute (@rev Z) [] loaded "Emoji" (Some " 1F368 ") []
  = Ok ("&#x1F368;&#xFE0F;", [], loaded).
Proof.
  intros loaded.
  refine (proj1 (emoji_resolution (@rev Z) [] loaded loaded ∅ {[127848]} "Emoji" " 1F368 " []
                   _ _ _) 127848 _ _).
  - reflexivity.
  - vm_compute. discriminate.
  - reflexivity.
  - reflexivity.
  - set_solver.
Defined.

Lemma emoji_alias_witness :
  exists st',
    CustomTagsFix.single_tags_substitute (@rev Z) github_emojis fresh "emoji" (Some " sundae") []
    = Ok ("&#x1F368;&#xFE0F;", [], st').
Proof.
  destruct (emoji_alias (@rev Z) github_emojis
              "https://github.githubassets.com/images/icons/emoji/unicode/1f368.png?v8"
              "1f368" 127848 []) as (st' & Hs & _).
  - apply (bool_decide_unpack _). vm_compute. reflexivity.
  - vm_compute. reflexivity.
  - left.
  - vm_compute. reflexivity.
  - vm_compute. reflexivity.
  - vm_compute. reflexivity.
  - exists st'. exact Hs.
Defined.

(** ** Compound names *)

Local Close Scope Z_scope.

Section ColourizeFacts.
Import Dom CodeBlockFix.

(** A token with its class set to the one class [class_]. *)
Definition marked (class_ : string) (t : node) : node :=
  set_attrs (<["class" := AttrList [class_]]> (attrs t)) t.

Lemma set_class_of_marked (t : node) (class_ : string) :
  set_class_of t class_ = Ok (marked class_ t).
Proof.
  unfold set_class_of, html_set_class, html_add_class, marked.
  rewrite lookup_insert_eq. cbn [foldl]. unfold add_class_step.
  cbn [mbind result_bind rbind]. rewrite lookup_insert_eq. cbn [mem existsb].
  rewrite insert_insert_eq. reflexivity.
Qed.

(** What the caller hands over: a run that is not empty and neither
    starts nor, unless it is one token, ends with a separator. *)
Definition assembled (tags : list node) : Prop :=
  match tags with
  | [] => False
  | t :: _ =>
      is_sep t = false /\ (length tags = 1%nat \/ is_sep (List.last tags t) = false)
  end.

(** The class of a token is a list, or the token has none: how the
    parser leaves it. *)
Definition parsed_class (t : node) : Prop :=
  match attrs t !! "class" with
  | Some (AttrStr _) => False
  | _ => True
  end.

Lemma drop_while_suffix {A} (f : A -> bool) (l : list A) :
  exists front, l = (front ++ drop_while f l)%list.
Proof.
  induction l as [|x l [front IH]]; simpl; [exists []; reflexivity|].
  destruct (f x); [exists (x :: front); simpl; congruence|exists []; reflexivity].
Qed.

Lemma strip_seps_prefix (tags : list node) :
  exists back, tags = (strip_seps tags ++ back)%list.
Proof.
  unfold strip_seps. destruct (drop_while_suffix is_sep (rev tags)) as [front H].
  exists (rev front). rewrite <- rev_app_distr, <- H, rev_involutive. reflexivity.
Qed.

Lemma removelast_prefix {A} (l : list A) :
  exists back, l = (removelast l ++ back)%list.
Proof.
  destruct l as [|x l] using rev_ind; [exists []; reflexivity|].
  rewrite removelast_last. eauto.
Qed.

Lemma rest_prefix (tags : list node) :
  exists back, tags = (strip_seps (removelast tags) ++ back)%list.
Proof.
  destruct (removelast_prefix tags) as [b1 H1].
  destruct (strip_seps_prefix (removelast tags)) as [b2 H2].
  exists (b2 ++ b1)%list. rewrite app_assoc, <- H2. exact H1.
Qed.

Lemma drop_while_head {A} (f : A -> bool) (l : list A) x r :
  drop_while f l = x :: r -> f x = false.
Proof.
  induction l as [|y l IH]; simpl; [discriminate|].
  destruct (f y) eqn:E; [exact IH|]. intros [= <- <-]. exact E.
Qed.

Lemma strip_seps_last (tags : list node) (d : node) :
  strip_seps tags <> [] -> is_sep (List.last (strip_seps tags) d) = false.
Proof.
  unfold strip_seps. destruct (drop_while is_sep (rev tags)) as [|x r] eqn:E; [done|].
  intros _. simpl. rewrite last_last. eapply drop_while_head, E.
Qed.

(** The run handed to the recursive call is again what a caller may
    hand over. *)
Lemma assembled_rest (tags : list node) :
  assembled tags -> strip_seps (removelast tags) <> [] ->
  assembled (strip_seps (removelast tags)).
Proof.
  intros Ha Hne. destruct (rest_prefix tags) as [back Hp].
  destruct (strip_seps (removelast tags)) as [|x l] eqn:E; [done|].
  destruct tags as [|t r]; [done|]. destruct Ha as [Hfirst _].
  simpl in Hp. injection Hp as -> _. split; [exact Hfirst|]. right.
  rewrite <- E. rewrite <- E in Hne. apply strip_seps_last. exact Hne.
Qed.

Lemma parsed_rest (tags : list node) :
  Forall parsed_class tags -> Forall parsed_class (strip_seps (removelast tags)).
Proof.
  intros H. destruct (rest_prefix tags) as [back Hp]. rewrite Hp in H.
  apply Forall_app in H. tauto.
Qed.

(** The classes the first token is left with: [n], [nl] and [kt] are
    taken out once each, and [ns] is added when one of them was there. *)
Definition collapsed_classes (l : list string) : list string :=
  let l' := remove_first "kt" (remove_first "nl" (remove_first "n" l)) in
  if (mem "n" l || mem "nl" (remove_first "n" l)
      || mem "kt" (remove_first "nl" (remove_first "n" l)))%bool
  then (if mem "ns" l' then l' else l' ++ ["ns"])%list
  else l.

Lemma remove_first_absent (x : string) (l : list string) :
  mem x l = false -> remove_first x l = l.
Proof.
  induction l as [|y l IH]; simpl; [reflexivity|].
  destruct (String.eqb x y); simpl; [discriminate|]. intros H. rewrite IH; auto.
Qed.

Lemma remove_class_step_list (a : gmap string attr_value) (l : list string) (removed : bool)
    (class_ : string) :
  a !! "class" = Some (AttrList l) ->
  remove_class_step (Ok (removed, a)) class_
  = Ok ((removed || mem class_ l)%bool, <["class" := AttrList (remove_first class_ l)]> a).
Proof.
  intros Ha. unfold remove_class_step. cbn [mbind result_bind rbind]. rewrite Ha.
  destruct (mem class_ l) eqn:E.
  - rewrite orb_true_r. reflexivity.
  - rewrite orb_false_r, (remove_first_absent _ _ E), insert_id by exact Ha. reflexivity.
Qed.

Lemma collapse_classes (a : gmap string attr_value) (l : list string) :
  a !! "class" = Some (AttrList l) ->
  ('(removed, a1) ← html_remove_class a ["n"; "nl"; "kt"];
   (if (removed : bool) then '(_, a2) ← html_add_class a1 ["ns"]; Ok a2 else Ok a1))
  = Ok (<["class" := AttrList (collapsed_classes l)]> a).
Proof.
  intros Ha. unfold html_remove_class. rewrite Ha. cbn [foldl].
  rewrite (remove_class_step_list a l false "n" Ha).
  rewrite (remove_class_step_list _ (remove_first "n" l) _ "nl") by apply lookup_insert_eq.
  rewrite (remove_class_step_list _ (remove_first "nl" (remove_first "n" l)) _ "kt")
    by apply lookup_insert_eq.
  rewrite !insert_insert_eq. cbn [mbind result_bind rbind orb]. unfold collapsed_classes.
  set (l' := remove_first "kt" (remove_first "nl" (remove_first "n" l))).
  destruct (mem "n" l || mem "nl" (remove_first "n" l)
            || mem "kt" (remove_first "nl" (remove_first "n" l)))%bool eqn:Hrem.
  - rewrite lookup_insert_eq. destruct l' as [|c l''] eqn:El.
    + cbn [mbind result_bind rbind]. unfold html_add_class.
      rewrite lookup_delete_eq. cbn [foldl]. unfold add_class_step.
      cbn [mbind result_bind rbind]. rewrite lookup_insert_eq. cbn [mem existsb].
      rewrite insert_insert_eq, insert_delete_eq, insert_insert_eq. reflexivity.
    + cbn [mbind result_bind rbind]. unfold html_add_class.
      rewrite lookup_insert_eq. cbn [foldl]. unfold add_class_step.
      cbn [mbind result_bind rbind]. rewrite lookup_insert_eq.
      destruct (mem "ns" (c :: l'')); [|rewrite insert_insert_eq]; reflexivity.
  - apply orb_false_elim in Hrem as [Hrem Hkt]. apply orb_false_elim in Hrem as [Hn Hnl].
    f_equal. subst l'. rewrite (remove_first_absent _ _ Hn) in *.
    rewrite (remove_first_absent _ _ Hnl) in *. rewrite (remove_first_absent _ _ Hkt).
    reflexivity.
Qed.

(** The token that the surviving tokens [t0 :: rest] become. *)
Definition collapsed (next : node_id) (t0 : node) (rest : list node) : node :=
  let t := set_contents [NavigableString next (full_text (t0 :: rest))] t0 in
  match attrs t0 !! "class" with
  | Some (AttrList l) => set_attrs (<["class" := AttrList (collapsed_classes l)]> (attrs t0)) t
  | _ => t
  end.

Lemma attrs_set_contents cs t : attrs (set_contents cs t) = attrs t.
Proof. destruct t; reflexivity. Qed.

Lemma set_attrs_same t : set_attrs (attrs t) t = t.
Proof. destruct t; reflexivity. Qed.

Lemma collapse_parsed (next : node_id) (t0 : node) (rest : list node) :
  parsed_class t0 ->
  collapse next (t0 :: rest) = Ok (Some (collapsed next t0 rest) :: map (fun _ => None) rest).
Proof.
  intros Hp. unfold collapse, collapsed, parsed_class in *.
  cbv zeta. rewrite attrs_set_contents.
  destruct (attrs t0 !! "class") as [[s|l]|] eqn:Hc; [done| |].
  - pose proof (collapse_classes _ _ Hc) as H.
    apply bind_ok in H as ([removed a1] & Hrm & H). rewrite Hrm.
    cbn [mbind result_bind rbind]. cbn [mbind result_bind rbind] in H.
    destruct removed.
    + apply bind_ok in H as ([x a2] & Hadd & H). rewrite Hadd. injection H as ->.
      reflexivity.
    + injection H as ->. reflexivity.
  - unfold html_remove_class. rewrite Hc. cbn [mbind result_bind rbind].
    destruct t0; reflexivity.
Qed.

Definition name_token (i : node_id) (text : string) : node :=
  Tag i "span" {["class" := AttrList ["n"]]} [NavigableString (S i) text].

Definition sep_token (i : node_id) : node :=
  Tag i "span" {["class" := AttrList ["o"]]} [NavigableString (S i) "::"].

(** The run [a::b::C::Value] as the highlighter renders it. *)
Definition qualified_value : list node :=
  [name_token 1 "a"; sep_token 3; name_token 5 "b"; sep_token 7; name_token 9 "C";
   sep_token 11; name_token 13 "Value"].

Lemma qualified_value_assembled :
  assembled qualified_value /\ Forall parsed_class qualified_value.
Proof.
  split; [split; [reflexivity|right; reflexivity]|].
  repeat constructor.
Qed.

Variables _enums _types _namespaces : string -> bool.

Lemma ns_prefix_spec (tags : list node) :
  (exists back, tags = (ns_prefix _namespaces tags ++ back)%list)
  /\ (ns_prefix _namespaces tags <> [] ->
      _namespaces (full_text (ns_prefix _namespaces tags)) = true).
Proof.
  funelim (ns_prefix _namespaces tags).
  - split; [exists []; reflexivity|done].
  - destruct (_namespaces (full_text (t :: r))) eqn:E.
    + split; [exists []; rewrite app_nil_r; reflexivity|intros _; exact E].
    + destruct H as [[back Hb] Hm]. split; [|exact Hm].
      destruct (rest_prefix (t :: r)) as [back' Hp].
      exists (back ++ back')%list. rewrite app_assoc, <- Hb. exact Hp.
Qed.

Lemma rest_dropped_length (tags : list node) :
  tags <> [] ->
  (length (strip_seps (removelast tags))
   + length (drop (length (strip_seps (removelast tags))) (removelast tags)) + 1
   = length tags)%nat.
Proof.
  intros Hne. rewrite length_drop. pose proof (strip_seps_length (removelast tags)).
  rewrite removelast_length in *. destruct tags; [done|simpl in *; lia].
Qed.

(** On a run as the caller assembles it from parsed tokens the call
    returns, with one entry for each token. *)
Lemma colourize_returns (n : nat) : forall next tags,
  (length tags <= n)%nat -> assembled tags -> Forall parsed_class tags ->
  exists b out next',
    colourize_compound_def _enums _types _namespaces next tags = Ok (b, out, next')
    /\ length out = length tags.
Proof.
  induction n as [|n IH]; intros next tags Hlen Ha Hp.
  { destruct tags; [destruct Ha|simpl in Hlen; lia]. }
  destruct tags as [|t r]; [destruct Ha|].
  rewrite colourize_compound_def_equation_2. cbv zeta.
  destruct Ha as [Hfirst Hlast]. rewrite Hfirst.
  assert (Hguard : (negb (length (t :: r) =? 1)%nat && is_sep (List.last (t :: r) t))%bool = false).
  { destruct Hlast as [-> | ->]; [reflexivity|apply andb_false_r]. }
  rewrite Hguard.
  assert (Hmark : forall class_, exists out next',
    (set_class_of (List.last (t :: r) t) class_
     ≫= λ last' : node,
       match strip_seps (removelast (t :: r)) with
       | [] => Ok ([], next)
       | _ :: _ =>
           colourize_compound_def _enums _types _namespaces next
             (strip_seps (removelast (t :: r)))
           ≫= λ '(_, out, next'), Ok (out, next')
       end
       ≫= λ '(out, next'),
         Ok (true,
             (out ++ map Some (drop (length (strip_seps (removelast (t :: r))))
                                    (removelast (t :: r))) ++ [Some last'])%list, next'))
    = Ok (true, out, next') /\ length out = length (t :: r)).
  { intros class_. rewrite set_class_of_marked. cbn [mbind result_bind rbind].
    pose proof (rest_dropped_length (t :: r) ltac:(done)) as Hl.
    destruct (strip_seps (removelast (t :: r))) as [|x l] eqn:Erest.
    - cbn [mbind result_bind rbind]. eexists _, _. split; [reflexivity|].
      rewrite !length_app, length_map. simpl in *. lia.
    - destruct (IH next (x :: l)) as (b & out & next' & Hrec & Hout).
      + pose proof (shorter_after_drop (t :: r) ltac:(done)). rewrite Erest in *.
        simpl in *. lia.
      + rewrite <- Erest. apply assembled_rest; [split; assumption|]. rewrite Erest. done.
      + rewrite <- Erest. apply parsed_rest. exact Hp.
      + rewrite Hrec. cbn [mbind result_bind rbind]. eexists _, _. split; [reflexivity|].
        rewrite !length_app, length_map, Hout. simpl in *. lia. }
  destruct (_enums (full_text (t :: r))).
  { destruct (Hmark "ne") as (out & next' & -> & Hout). eauto. }
  destruct (_types (full_text (t :: r))).
  { destruct (Hmark "ut") as (out & next' & -> & Hout). eauto. }
  destruct (ns_prefix_spec (t :: r)) as [[back Hb] _].
  destruct (ns_prefix _namespaces (t :: r)) as [|t0 l] eqn:Ens.
  - eexists _, _, _. split; [reflexivity|]. apply length_map.
  - simpl in Hb. injection Hb as <- Hr. rewrite collapse_parsed.
    + cbn [mbind result_bind rbind]. eexists _, _, _. split; [reflexivity|].
      rewrite Hr. simpl. rewrite length_app, !length_map, length_drop, length_app. lia.
    + apply Forall_inv in Hp. exact Hp.
Qed.

(** The three cases of the classification of a run. *)
Lemma classification_cases (next : node_id) (t : node) (r : list node) :
  assembled (t :: r) -> Forall parsed_class (t :: r) ->
  let tags := t :: r in
  let full_str := full_text tags in
  let rest := strip_seps (removelast tags) in
  let dropped := drop (length rest) (removelast tags) in
  let returned := colourize_compound_def _enums _types _namespaces next tags in
  exists out next',
    match rest with
    | [] => out = [] /\ next' = next
    | _ => exists b, colourize_compound_def _enums _types _namespaces next rest
                     = Ok (b, out, next')
    end
    /\ length out = length rest
    /\ (_enums full_str = true ->
        returned = Ok (true, (out ++ map Some dropped ++ [Some (marked "ne" (List.last tags t))])%list,
                       next'))
    /\ (_enums full_str = false -> _types full_str = true ->
        returned = Ok (true, (out ++ map Some dropped ++ [Some (marked "ut" (List.last tags t))])%list,
                       next'))
    /\ (_enums full_str = false -> _types full_str = false ->
        match ns_prefix _namespaces tags with
        | [] => returned = Ok (false, map Some tags, next)
        | t0 :: kept =>
            t0 = t /\ _namespaces (full_text (t0 :: kept)) = true
            /\ returned = Ok (true,
                              (Some (collapsed next t0 kept) :: map (fun _ => None) kept
                               ++ map Some (drop (S (length kept)) tags))%list,
                              S next)
        end).
Proof.
  intros Ha Hp tags full_str rest dropped returned.
  assert (Hrest : exists out next',
             match rest with
             | [] => out = [] /\ next' = next
             | _ => exists b, colourize_compound_def _enums _types _namespaces next rest
                              = Ok (b, out, next')
             end /\ length out = length rest).
  { destruct rest as [|x l] eqn:Erest; [exists [], next; auto|].
    destruct (colourize_returns (length (x :: l)) next (x :: l)) as (b & out & n' & Hrec & Hout).
    - lia.
    - rewrite <- Erest. apply assembled_rest; [exact Ha|]. fold tags rest. rewrite Erest. done.
    - rewrite <- Erest. apply parsed_rest. exact Hp.
    - exists out, n'. eauto. }
  destruct Hrest as (out & next' & Hrest & Hout). exists out, next'.
  split; [exact Hrest|]. split; [exact Hout|].
  assert (Hunfold := colourize_compound_def_equation_2 _enums _types _namespaces next t r).
  cbv zeta in Hunfold. fold tags in Hunfold. fold full_str rest dropped returned in Hunfold.
  destruct Ha as [Hfirst Hlast]. rewrite Hfirst in Hunfold.
  assert (Hguard : (negb (length tags =? 1)%nat && is_sep (List.last tags t))%bool = false).
  { unfold tags. destruct Hlast as [-> | ->]; [reflexivity|apply andb_false_r]. }
  rewrite Hguard in Hunfold.
  assert (Hmark : forall class_,
    (set_class_of (List.last tags t) class_
     ≫= λ last' : node,
       match rest with
       | [] => Ok ([], next)
       | _ :: _ =>
           colourize_compound_def _enums _types _namespaces next rest
           ≫= λ '(_, out, next'), Ok (out, next')
       end
       ≫= λ '(out, next'),
         Ok (true, (out ++ map Some dropped ++ [Some last'])%list, next'))
    = Ok (true, (out ++ map Some dropped ++ [Some (marked class_ (List.last tags t))])%list, next')).
  { intros class_. rewrite set_class_of_marked. cbn [mbind result_bind rbind].
    destruct rest as [|x l].
    - destruct Hrest as [-> ->]. reflexivity.
    - destruct Hrest as [b ->]. reflexivity. }
  repeat split.
  - intros He. rewrite Hunfold, He. apply Hmark.
  - intros He Ht. rewrite Hunfold, He, Ht. apply Hmark.
  - intros He Ht. rewrite He, Ht in Hunfold.
    destruct (ns_prefix_spec tags) as [[back Hb] Hm].
    destruct (ns_prefix _namespaces tags) as [|t0 kept] eqn:Ens; [exact Hunfold|].
    unfold tags in Hb. simpl in Hb. injection Hb as <- Hr.
    split; [reflexivity|]. split; [apply Hm; done|].
    rewrite collapse_parsed in Hunfold by (apply Forall_inv in Hp; exact Hp).
    exact Hunfold.
Qed.

(** C4 (amended): for every assembled run of parsed tokens: when the
    text of the run is a known enum value the trailing token is marked
    [ne], the separators before it are left alone and what is in front
    of them is classified in turn; else when it is a known type the
    trailing token is marked [ut] in the same way; else trailing
    tokens are dropped until the text left is a known namespace, and
    the tokens left become one token, which is classed [ns] only when
    it was classed [n], [nl] or [kt]; when nothing is left the run
    stays as it is.  For [a::b::C::Value] with the whole a known enum
    value and [a::b::C] a known type, [Value] is marked [ne] and [C]
    is marked [ut].  When the text of the run is neither a known enum
    value nor a known type, no token is marked as a type: every token
    after the first is left as it is or taken into the namespace
    token. *)
Theorem compound_name_classification (next : node_id) (t : node) (r : list node) :
  assembled (t :: r) -> Forall parsed_class (t :: r) ->
  let tags := t :: r in
  let full_str := full_text tags in
  let rest := strip_seps (removelast tags) in
  let dropped := drop (length rest) (removelast tags) in
  let returned := colourize_compound_def _enums _types _namespaces next tags in
  (exists out next',
     match rest with
     | [] => out = [] /\ next' = next
     | _ => exists b, colourize_compound_def _enums _types _namespaces next rest
                      = Ok (b, out, next')
     end
     /\ (_enums full_str = true ->
         returned = Ok (true, (out ++ map Some dropped
                                ++ [Some (marked "ne" (List.last tags t))])%list, next'))
     /\ (_enums full_str = false -> _types full_str = true ->
         returned = Ok (true, (out ++ map Some dropped
                                ++ [Some (marked "ut" (List.last tags t))])%list, next')))
  /\ (_enums full_str = false -> _types full_str = false ->
      match ns_prefix _namespaces tags with
      | [] => returned = Ok (false, map Some tags, next)
      | t0 :: kept =>
          _namespaces (full_text (t0 :: kept)) = true
          /\ returned = Ok (true,
                            (Some (collapsed next t kept) :: map (fun _ => None) kept
                             ++ map Some (drop (S (length kept)) tags))%list,
                            S next)
      end)
  /\ (_enums full_str = false -> _types full_str = false ->
      exists b out next',
        returned = Ok (b, out, next')
        /\ forall k t', (0 < k)%nat -> out !! k = Some (Some t') -> tags !! k = Some t')
  /\ (forall next0,
        _enums "a::b::C::Value" = true -> _enums "a::b::C" = false ->
        _types "a::b::C" = true ->
        exists front next',
          length front = 3%nat
          /\ colourize_compound_def _enums _types _namespaces next0 qualified_value
             = Ok (true,
                   (front ++ [Some (sep_token 7); Some (marked "ut" (name_token 9 "C"));
                              Some (sep_token 11); Some (marked "ne" (name_token 13 "Value"))])%list,
                   next')).
Proof.
  intros Ha Hp tags full_str rest dropped returned.
  destruct (classification_cases next t r Ha Hp)
    as (out & next' & Hrest & Hout & Henum & Htype & Hns).
  fold tags full_str rest dropped returned in Hrest, Hout, Henum, Htype, Hns.
  assert (Hns' : _enums full_str = false -> _types full_str = false ->
      match ns_prefix _namespaces tags with
      | [] => returned = Ok (false, map Some tags, next)
      | t0 :: kept =>
          _namespaces (full_text (t0 :: kept)) = true
          /\ returned = Ok (true,
                            (Some (collapsed next t kept) :: map (fun _ => None) kept
                             ++ map Some (drop (S (length kept)) tags))%list,
                            S next)
      end).
  { intros He Ht. specialize (Hns He Ht).
    destruct (ns_prefix _namespaces tags) as [|t0 kept]; [exact Hns|].
    destruct Hns as (-> & Hm & Hr). auto. }
  split; [exists out, next'; auto|]. split; [exact Hns'|]. split.
  - intros He Ht. specialize (Hns' He Ht).
    destruct (ns_prefix_spec tags) as [[back Hb] _].
    destruct (ns_prefix _namespaces tags) as [|t0 kept] eqn:Ens.
    + eexists _, _, _. split; [exact Hns'|]. intros k t' _ Hk.
      rewrite list_lookup_fmap in Hk. destruct (tags !! k); simpl in Hk; congruence.
    + destruct Hns' as [_ Hr]. eexists _, _, _. split; [exact Hr|]. intros k t' Hk Hout'.
      destruct k as [|k]; [lia|]. simpl in Hout'.
      destruct (decide (k < length kept)%nat) as [Hlt|Hge].
      * rewrite lookup_app_l in Hout' by (rewrite length_map; exact Hlt).
        rewrite list_lookup_fmap in Hout'. destruct (kept !! k); discriminate.
      * rewrite lookup_app_r in Hout' by (rewrite length_map; lia).
        rewrite length_map, list_lookup_fmap, lookup_drop in Hout'.
        replace (length kept + (k - length kept))%nat with k in Hout' by lia.
        change (tags !! S k) with (r !! k).
        destruct (r !! k); simpl in Hout'; congruence.
  - intros next0 He1 He2 Ht.
    destruct qualified_value_assembled as [Ha1 Hp1].
    destruct (classification_cases next0 _ _ Ha1 Hp1)
      as (out1 & n1 & Hrest1 & Hout1 & Henum1 & _).
    change (full_text qualified_value) with "a::b::C::Value" in Henum1.
    specialize (Henum1 He1). cbn [List.last] in Henum1.
    change (strip_seps (removelast qualified_value))
      with [name_token 1 "a"; sep_token 3; name_token 5 "b"; sep_token 7; name_token 9 "C"]
      in Hrest1, Hout1, Henum1.
    destruct Hrest1 as [b1 Hrec1].
    assert (Ha2 : assembled [name_token 1 "a"; sep_token 3; name_token 5 "b"; sep_token 7;
                             name_token 9 "C"]) by (split; [reflexivity|right; reflexivity]).
    assert (Hp2 : Forall parsed_class [name_token 1 "a"; sep_token 3; name_token 5 "b";
                                       sep_token 7; name_token 9 "C"]) by (repeat constructor).
    destruct (classification_cases next0 _ _ Ha2 Hp2)
      as (out2 & n2 & Hrest2 & Hout2 & _ & Htype2 & _).
    change (full_text [name_token 1 "a"; sep_token 3; name_token 5 "b"; sep_token 7;
                       name_token 9 "C"]) with "a::b::C" in Htype2.
    specialize (Htype2 He2 Ht).
    assert (Hrec1' : colourize_compound_def _enums _types _namespaces next0
                       [name_token 1 "a"; sep_token 3; name_token 5 "b"; sep_token 7;
                        name_token 9 "C"] = Ok (b1, out1, n1)) by exact Hrec1.
    rewrite Hrec1' in Htype2. injection Htype2 as _ -> ->.
    exists out2, n2. split; [exact Hout2|].
    etransitivity; [exact Henum1|]. rewrite <- !app_assoc. reflexivity.
Qed.
End ColourizeFacts.

Import Dom CodeBlockFix.

(** The claim as the specification words its last clause: without the
    enum value, the token that ends the longest known-type prefix is
    marked as a type. *)
Definition type_prefix_as_stated : Prop :=
  forall (_enums _types _namespaces : string -> bool) (next : node_id),
    _enums "a::b::C::Value" = false ->
    _types "a::b::C::Value" = false -> _types "a::b::C" = true ->
    exists b out next',
      colourize_compound_def _enums _types _namespaces next qualified_value = Ok (b, out, next')
      /\ out !! 4%nat = Some (Some (marked "ut" (name_token 9 "C"))).

Lemma type_prefix_not_classified : ~ type_prefix_as_stated.
Proof.
  intros H.
  destruct (H (fun _ => false) (String.eqb "a::b::C") (fun _ => false) 100%nat
              eq_refl eq_refl eq_refl) as (b & out & next' & Hrun & Hout).
  vm_compute in Hrun. injection Hrun as _ <- _. 
  apply (f_equal (fun o => match o with
                           | Some (Some t) => attrs t !! "class"
                           | _ => None
                           end)) in Hout.
  vm_compute in Hout. discriminate.
Qed.

Lemma compound_name_classification_witness :
  exists front next',
    length front = 3%nat
    /\ colourize_compound_def (String.eqb "a::b::C::Value") (String.eqb "a::b::C")
         (String.eqb "a::b") 100 qualified_value
       = Ok (true,
             (front ++ [Some (sep_token 7); Some (marked "ut" (name_token 9 "C"));
                        Some (sep_token 11); Some (marked "ne" (name_token 13 "Value"))])%list,
             next').
Proof.
  destruct qualified_value_assembled as [Ha Hp].
  destruct (compound_name_classification (String.eqb "a::b::C::Value") (String.eqb "a::b::C")
              (String.eqb "a::b") 100 _ _ Ha Hp) as (_ & _ & _ & Hexample).
  apply Hexample; reflexivity.
Defined.

(** ** The run over one document *)

Section PipelineFacts.
Import Dom Pipeline.

Definition is_flush (ev : event) : bool :=
  match ev with Flushed _ _ => true | _ => false end.

Definition is_failure (ev : event) : bool :=
  match ev with Failed _ => true | _ => false end.

(** The events of the fixers that returned, the first at position [k]. *)
Definition returns (k : nat) (flags : list bool) : list event :=
  imap (fun i b => Returned (k + i) b) flags.

Lemma returns_snoc k flags b :
  returns k (flags ++ [b]) = (returns k flags ++ [Returned (k + length flags) b])%list.
Proof.
  unfold returns. rewrite imap_app. simpl. rewrite Nat.add_0_r. reflexivity.
Qed.

Lemma returns_cons k flags b :
  returns k (b :: flags) = Returned k b :: returns (S k) flags.
Proof.
  unfold returns. simpl. rewrite Nat.add_0_r. f_equal.
  apply imap_ext. intros i x _. simpl. f_equal. lia.
Qed.

(** One pass: the fixers return in order, each once, up to the first
    that raises; the flag is set as soon as one returns true. *)
Lemma run_fixes_returns dir file (fixes : list fixer) :
  forall k changed doc calls c r calls',
    run_fixes dir file fixes k changed doc calls = (c, r, calls') ->
    exists flags,
      calls' = (calls ++ returns k flags)%list
      /\ c = (changed || existsb id flags)%bool
      /\ match r with
         | Ok _ => length flags = length fixes
         | Raise _ => (length flags < length fixes)%nat
         end.
Proof.
  induction fixes as [|fix_ rest IH]; intros k changed doc calls c r calls' Hrun; simpl in Hrun.
  - injection Hrun as <- <- <-. exists []. simpl. rewrite app_nil_r, orb_false_r. auto.
  - destruct (fix_ dir file doc) as [[[|] doc']|e].
    + apply IH in Hrun as (flags & -> & -> & Hlen). exists (true :: flags).
      rewrite returns_cons, <- app_assoc. simpl. rewrite orb_true_r.
      repeat split. destruct r; simpl; lia.
    + apply IH in Hrun as (flags & -> & -> & Hlen). exists (false :: flags).
      rewrite returns_cons, <- app_assoc. simpl.
      repeat split. destruct r; simpl; lia.
    + injection Hrun as <- <- <-. exists []. simpl. rewrite app_nil_r, orb_false_r.
      repeat split. lia.
Qed.

Lemma returns_no_flush k flags : List.filter is_flush (returns k flags) = [].
Proof.
  revert k. induction flags as [|b flags IH]; intros k; [reflexivity|].
  rewrite returns_cons. simpl. apply IH.
Qed.

Lemma returns_no_failure k flags : List.filter is_failure (returns k flags) = [].
Proof.
  revert k. induction flags as [|b flags IH]; intros k; [reflexivity|].
  rewrite returns_cons. simpl. apply IH.
Qed.


(** The document that the first [k] fixers leave, when each of them
    returns. *)
Fixpoint doc_at (dir file : string) (fixes : list fixer) (k : nat) (doc : HTMLDocument)
  : option HTMLDocument :=
  match k, fixes with
  | O, _ => Some doc
  | S k', fix_ :: rest =>
      match fix_ dir file doc with
      | Ok (true, doc') => doc_at dir file rest k' (doc_smooth doc')
      | Ok (false, doc') => doc_at dir file rest k' doc'
      | Raise _ => None
      end
  | S _, [] => None
  end.

(** The fixer at position [k] is called on the document the earlier
    ones left, and gives [r]. *)
Definition fixer_gives (dir file : string) (fixes : list fixer) (doc : HTMLDocument)
    (k : nat) (r : result (bool * HTMLDocument)) : Prop :=
  exists (fix_ : fixer) (d : HTMLDocument),
    fixes !! k = Some fix_ /\ doc_at dir file fixes k doc = Some d
                 /\ fix_ dir file d = r.

Lemma fixer_gives_cons (dir file : string) (fix_ : fixer) (rest : list fixer) doc
    (b : bool) doc' k r :
  fix_ dir file doc = Ok (b, doc') ->
  fixer_gives dir file rest (if b then doc_smooth doc' else doc') k r ->
  fixer_gives dir file (fix_ :: rest) doc (S k) r.
Proof.
  intros Hfix (f & d & Hf & Hd & Hr). exists f, d. repeat split; [exact Hf| |exact Hr].
  simpl. rewrite Hfix. destruct b; exact Hd.
Qed.

Lemma fixer_gives_cons_inv (dir file : string) (fix_ : fixer) (rest : list fixer) doc k r :
  fixer_gives dir file (fix_ :: rest) doc (S k) r ->
  exists b doc', fix_ dir file doc = Ok (b, doc')
    /\ fixer_gives dir file rest (if b then doc_smooth doc' else doc') k r.
Proof.
  intros (f & d & Hf & Hd & Hr). simpl in Hf, Hd.
  destruct (fix_ dir file doc) as [[b doc']|e]; [|discriminate].
  exists b, doc'. split; [reflexivity|]. exists f, d. destruct b; auto.
Qed.

Lemma fixer_gives_head (dir file : string) (fix_ : fixer) (rest : list fixer) doc r :
  fixer_gives dir file (fix_ :: rest) doc 0 r <-> fix_ dir file doc = r.
Proof.
  split.
  - intros (f & d & [= <-] & [= <-] & Hr). exact Hr.
  - intros Hr. exists fix_, doc. auto.
Qed.

(** One pass: the fixers return in order, each once, up to the first
    that raises; the flag is set as soon as one returns true. *)
Lemma run_fixes_spec dir file (fixes : list fixer) :
  forall k0 changed doc calls c r calls',
    run_fixes dir file fixes k0 changed doc calls = (c, r, calls') ->
    exists flags,
      calls' = (calls ++ returns k0 flags)%list
      /\ c = (changed || existsb id flags)%bool
      /\ (forall k b, flags !! k = Some b ->
            exists d', fixer_gives dir file fixes doc k (Ok (b, d')))
      /\ match r with
         | Ok d' => length flags = length fixes
                    /\ doc_at dir file fixes (length fixes) doc = Some d'
         | Raise e => fixer_gives dir file fixes doc (length flags) (Raise e)
         end.
Proof.
  induction fixes as [|fix_ rest IH]; intros k0 changed doc calls c r calls' Hrun; simpl in Hrun.
  - injection Hrun as <- <- <-. exists []. simpl. rewrite app_nil_r, orb_false_r.
    repeat split. intros k b Hk. discriminate.
  - destruct (fix_ dir file doc) as [[b doc']|e] eqn:Hfix.
    + assert (Hrun' : run_fixes dir file rest (S k0) (if b then true else changed)
                        (if b then doc_smooth doc' else doc')
                        (calls ++ [Returned k0 b]) = (c, r, calls')).
      { destruct b; exact Hrun. }
      apply IH in Hrun' as (flags & -> & -> & Hflags & Hr). exists (b :: flags).
      rewrite returns_cons, <- app_assoc. simpl. repeat split.
      * destruct b; simpl; [rewrite orb_true_r|]; reflexivity.
      * intros [|k] b' Hk; simpl in Hk.
        -- injection Hk as <-. exists doc'. apply fixer_gives_head. exact Hfix.
        -- destruct (Hflags k b' Hk) as (d' & Hg). exists d'.
           eapply fixer_gives_cons; eassumption.
      * destruct r as [d'|e].
        -- destruct Hr as [Hlen Hd]. split; [simpl; lia|]. simpl. rewrite Hfix.
           destruct b; exact Hd.
        -- simpl. eapply fixer_gives_cons; eassumption.
    + injection Hrun as <- <- <-. exists []. simpl. rewrite app_nil_r, orb_false_r.
      repeat split; [intros k b Hk; discriminate|]. apply fixer_gives_head. exact Hfix.
Qed.

(** Where a fixer raises, the pass ends with its exception. *)
Lemma run_fixes_raises dir file (fixes : list fixer) :
  forall k0 changed doc calls k e,
    fixer_gives dir file fixes doc k (Raise e) ->
    exists c calls', run_fixes dir file fixes k0 changed doc calls = (c, Raise e, calls').
Proof.
  induction fixes as [|fix_ rest IH]; intros k0 changed doc calls k e Hg.
  - destruct Hg as (f & d & Hf & _). destruct k; discriminate.
  - destruct k as [|k].
    + apply fixer_gives_head in Hg. simpl. rewrite Hg. eauto.
    + apply fixer_gives_cons_inv in Hg as (b & doc' & Hfix & Hg). simpl. rewrite Hfix.
      destruct b; eapply IH; exact Hg.
Qed.


Lemma filter_flush_app l1 l2 :
  List.filter is_flush (l1 ++ l2) = (List.filter is_flush l1 ++ List.filter is_flush l2)%list.
Proof. apply List.filter_app. Qed.

Lemma in_returns k flags ev : In ev (returns k flags) -> exists j b, ev = Returned j b.
Proof.
  revert k. induction flags as [|b flags IH]; intros k H; [destruct H|].
  rewrite returns_cons in H. destruct H as [<-|H]; eauto.
Qed.

Lemma postprocess_all_stopped (fixes : list fixer) (jobs : list (string * string)) (w : world) :
  thread_error w = true ->
  postprocess_all fixes jobs w = (map (fun _ => false) jobs, w).
Proof.
  intros Hw. unfold postprocess_all.
  assert (H : forall acc, foldl (fun acc job =>
           let '(results, w) := acc in
           let '(changed, w) := postprocess_file job.1 job.2 fixes w in
           ((results ++ [changed])%list, w)) (acc, w) jobs
           = ((acc ++ map (fun _ => false) jobs)%list, w)).
  { induction jobs as [|job jobs IH]; intros acc; simpl.
    - rewrite app_nil_r. reflexivity.
    - unfold postprocess_file at 2. rewrite Hw. rewrite IH, <- app_assoc. reflexivity. }
  apply (H []).
Qed.



Definition is_return (ev : event) : bool :=
  match ev with Returned _ _ => true | _ => false end.

Lemma returns_all k flags : List.filter is_return (returns k flags) = returns k flags.
Proof.
  revert k. induction flags as [|b flags IH]; intros k; [reflexivity|].
  rewrite returns_cons. simpl. rewrite IH. reflexivity.
Qed.


Lemma fixer_gives_functional dir file fixes doc k r r' :
  fixer_gives dir file fixes doc k r -> fixer_gives dir file fixes doc k r' -> r = r'.
Proof.
  intros (f & d & Hf & Hd & <-) (f' & d' & Hf' & Hd' & <-).
  rewrite Hf in Hf'. injection Hf' as <-. rewrite Hd in Hd'. injection Hd' as <-. reflexivity.
Qed.

Lemma existsb_all_false (flags : list bool) :
  (forall k b, flags !! k = Some b -> b = false) -> existsb id flags = false.
Proof.
  induction flags as [|b flags IH]; intros H; [reflexivity|]. simpl.
  rewrite (H 0 b eq_refl). apply IH. intros k b' Hk. exact (H (S k) b' Hk).
Qed.


End PipelineFacts.

Import Dom Pipeline.

(** A page with the nesting the constructor looks for, [contents] being
    what the article holds. *)
Definition page_of (contents : list node) : node :=
  Tag 0 "body" ∅
    [Tag 1 "main" ∅ [Tag 2 "article" ∅ [Tag 3 "div" ∅ [Tag 4 "div" ∅
      [Tag 5 "div" ∅ contents]]]]].

Definition on_disk (path : string) (page : node) : world :=
  {| thread_error := false; files := {[ path := page ]}; writable := fun _ => true; log := [] |}.

(** A main page with a banner between two headings. *)
Definition banner_page : node :=
  page_of [Tag 6 "h1" ∅ [NavigableString 7 "One"];
           Tag 8 "p" ∅ [Tag 9 "img" {[ "src" := AttrStr "banner.png" ]} []];
           Tag 10 "h1" ∅ [NavigableString 11 "Two"]].

Definition two_fixes : list fixer :=
  [DeadLinksFix.call (fun _ => true); IndexPageFix.call []].

(** C1 as it is stated: after a run that did not fail, a further pass
    of the fixer sequence over the page reports no change. *)
Definition fixpoint_as_stated : Prop :=
  forall (fixes : list fixer) (dir file : string) (w : world),
    thread_error w = false ->
    let w' := (postprocess_file dir file fixes w).2 in
    thread_error w' = false ->
    match open_document w' (DeadLinksFix.path_join dir file) with
    | Ok doc => (run_fixes dir (Py.lower file) fixes 0 false doc []).1.1 = false
    | Raise _ => True
    end.



(** The names of what the article of a page holds. *)
Definition article_names (page : option node) : list (option string) :=
  match page with
  | Some (Tag _ _ _ [Tag _ _ _ [Tag _ _ _ [Tag _ _ _ [Tag _ _ _ [Tag _ _ _ cs]]]]]) =>
      map name cs
  | _ => []
  end.

(** C3 as it is stated: a second run leaves the pages on disk as the
    first run wrote them. *)
Definition second_run_as_stated : Prop :=
  forall (fixes : list fixer) (dir file : string) (w : world),
    thread_error w = false ->
    let w1 := (postprocess_file dir file fixes w).2 in
    thread_error w1 = false ->
    let w2 := (postprocess_file dir file fixes w1).2 in
    files w2 = files w1.


(** A page on which no fixer finds anything to do. *)
Definition quiet_page : node := page_of [Tag 6 "p" ∅ [NavigableString 7 "text"]].

Definition quiet_doc : HTMLDocument :=
  {| doc_path := "html/index.html"; body := quiet_page; next_id := 8; article_content := 5;
     table_of_contents := None; sections := [] |}.


(** ** Dead links *)

Section DeadLinkFacts.
Import Dom DeadLinksFix.

(** The classes of a tag whose class the parser left: a list, or none. *)
Definition class_list (a : gmap string attr_value) : list string :=
  match a !! "class" with
  | Some (AttrList l) => l
  | _ => []
  end.

Definition parsed (a : gmap string attr_value) : Prop :=
  match a !! "class" with
  | Some (AttrStr _) => False
  | _ => True
  end.

(** Removing one class: its first occurrence goes, an emptied class
    attribute is deleted, and nothing else is touched. *)
Lemma html_remove_class_one (a : gmap string attr_value) (c : string) :
  parsed a ->
  exists a1,
    html_remove_class a [c] = Ok (mem c (class_list a), a1)
    /\ class_list a1 = remove_first c (class_list a)
    /\ parsed a1
    /\ forall k, k <> "class" -> a1 !! k = a !! k.
Proof.
  unfold parsed, class_list, html_remove_class. intros Hp.
  destruct (a !! "class") as [[s|l]|] eqn:Ha; [destruct Hp| |].
  - cbn [foldl]. rewrite (remove_class_step_list a l false c Ha).
    cbn [mbind result_bind rbind orb]. destruct (mem c l) eqn:Hm.
    + rewrite lookup_insert_eq. destruct (remove_first c l) as [|c' l'] eqn:Hr.
      * exists (delete "class" (<["class" := AttrList []]> a)). rewrite lookup_delete_eq.
        split_and!; auto. intros k Hk. rewrite lookup_delete_ne, lookup_insert_ne by congruence.
        reflexivity.
      * exists (<["class" := AttrList (c' :: l')]> a). rewrite lookup_insert_eq.
        split_and!; auto. intros k Hk. rewrite lookup_insert_ne by congruence. reflexivity.
    + rewrite (remove_first_absent _ _ Hm), insert_id by exact Ha. exists a. rewrite Ha.
      auto.
  - exists a. rewrite Ha. auto.
Qed.

Definition with_class (c : string) (l : list string) : list string :=
  if mem c l then l else (l ++ [c])%list.

(** Adding one class: it is appended unless it is there. *)
Lemma html_add_class_one (a : gmap string attr_value) (c : string) :
  parsed a ->
  exists a2,
    html_add_class a [c] = Ok (negb (mem c (class_list a)), a2)
    /\ class_list a2 = with_class c (class_list a)
    /\ forall k, k <> "class" -> a2 !! k = a !! k.
Proof.
  unfold parsed, class_list, html_add_class, with_class. intros Hp.
  destruct (a !! "class") as [[s|l]|] eqn:Ha; [destruct Hp| |].
  - cbn [foldl]. unfold add_class_step. cbn [mbind result_bind rbind]. rewrite Ha.
    destruct (mem c l) eqn:Hm.
    + exists a. rewrite Ha. auto.
    + exists (<["class" := AttrList (l ++ [c])]> a). rewrite lookup_insert_eq.
      split_and!; auto. intros k Hk. rewrite lookup_insert_ne by congruence. reflexivity.
  - cbn [foldl]. unfold add_class_step. cbn [mbind result_bind rbind].
    rewrite lookup_insert_eq. cbn [mem existsb negb].
    exists (<["class" := AttrList ([] ++ [c])]> (<["class" := AttrList []]> a)).
    rewrite lookup_insert_eq. split_and!; auto.
    intros k Hk. rewrite !lookup_insert_ne by congruence. reflexivity.
Qed.

Variable path_exists : string -> bool.


End DeadLinkFacts.

Import Dom DeadLinksFix.

(** C7 as it is stated: every dead link ends with a fallback id. *)
Definition fallback_id_as_stated : Prop :=
  forall (path_exists : string -> bool) (dir : string) (anchor parent : node)
         (href target : string) (fragment : option string),
    attrs anchor !! "href" = Some (AttrStr href) ->
    href_match href = Some (target, fragment) ->
    path_exists (path_join dir target) = false ->
    parsed (attrs anchor) ->
    exists anchor' parent' id,
      fix_anchor path_exists dir anchor parent = Ok (Some (anchor', parent'))
      /\ attrs anchor' !! "href" = Some (AttrStr ("#" ++ id)).

Definition dead_anchor : node :=
  Tag 7 "a" (<["class" := AttrList ["m-doc"]]> {[ "href" := AttrStr "missing.html#frag" ]})
    [NavigableString 8 "missing"].



(** ** Code blocks in paragraphs *)

Section CodeBlockFacts.
Import Dom CodeBlockFix.

Lemma promote_step_raise (bs : list node_id) (e : exn) :
  foldl promote_step (Raise e) bs = Raise e.
Proof. induction bs as [|b bs IH]; [reflexivity|exact IH]. Qed.

(** Once a block was promoted, the pass reports a change. *)
Lemma promote_step_flag (bs : list node_id) : forall root c' root',
  foldl promote_step (Ok (true, root)) bs = Ok (c', root') -> c' = true.
Proof.
  induction bs as [|b bs IH]; intros root c' root' H; simpl in H.
  - injection H as <- _. reflexivity.
  - destruct (qualifies root b).
    + destruct (promote b root) as [root1|e]; simpl in H.
      * eapply IH, H.
      * rewrite promote_step_raise in H. discriminate.
    + eapply IH, H.
Qed.

(** A pass reports a change exactly when one of the blocks stands in a
    paragraph of a [div]; without one the tree is left as it is. *)
Lemma promote_pass_flag (bs : list node_id) (root : node) (c : bool) (root' : node) :
  promote_pass bs root = Ok (c, root') ->
  c = existsb (qualifies root) bs /\ (c = false -> root' = root).
Proof.
  unfold promote_pass. induction bs as [|b bs IH]; simpl; intros H.
  - injection H as <- <-. auto.
  - destruct (qualifies root b) eqn:Hq; simpl.
    + destruct (promote b root) as [root1|e]; simpl in H.
      * apply promote_step_flag in H. subst c. split; [reflexivity|discriminate].
      * rewrite promote_step_raise in H. discriminate.
    + apply IH, H.
Qed.

Lemma promote_pass_quiet (bs : list node_id) (root : node) :
  existsb (qualifies root) bs = false -> promote_pass bs root = Ok (false, root).
Proof.
  unfold promote_pass. induction bs as [|b bs IH]; simpl; intros H; [reflexivity|].
  apply orb_false_elim in H as [-> H]. simpl. apply IH, H.
Qed.

Lemma final_phase_loop_spec (bs : list node_id) (changed : bool) (root : node) :
  forall c' root',
    final_phase_loop bs changed root = Ok (c', root') ->
    (load root' <= load root)%nat
    /\ c' = (changed || existsb (qualifies root) bs)%bool
    /\ (existsb (qualifies root) bs = false -> root' = root)
    /\ (existsb (qualifies root) bs = true -> (load root' < load root)%nat).
Proof.
  apply (final_phase_loop_elim
           (fun bs changed root r => forall c' root', r = Ok (c', root') ->
              (load root' <= load root)%nat
              /\ c' = (changed || existsb (qualifies root) bs)%bool
              /\ (existsb (qualifies root) bs = false -> root' = root)
              /\ (existsb (qualifies root) bs = true -> (load root' < load root)%nat)));
    clear bs changed root.
  - intros bs changed root root1 Hpass IH _ c' root' Hloop.
    destruct (IH c' root' Hloop) as (Hle & -> & _).
    destruct (promote_pass_flag _ _ _ _ Hpass) as [Hex _].
    destruct (promote_pass_load bs root false root1 Hpass) as [_ Hlt].
    specialize (Hlt eq_refl). rewrite <- Hex.
    split_and!; [lia|rewrite orb_true_r; reflexivity|discriminate|intros _; lia].
  - intros bs changed root root1 Hpass _ c' root' [= <- <-].
    destruct (promote_pass_flag _ _ _ _ Hpass) as [Hex Hsame].
    rewrite <- Hex, orb_false_r, (Hsame eq_refl).
    split_and!; [lia|reflexivity|reflexivity|discriminate].
  - intros bs changed root e _ _ c' root' [=].
Qed.

Lemma load_lt_neq (n n' : node) : (load n' < load n)%nat -> n' <> n.
Proof. intros Hlt ->. lia. Qed.

Variable syntax_highlighting : node -> result (bool * node).


End CodeBlockFacts.

Import Dom CodeBlockFix.

(** A code block outside of any paragraph, before and after a token of
    it was given its class. *)
Definition code_page (class_ : string) : node :=
  page_of [Tag 6 "pre" ∅
             [Tag 7 "code" {[ "class" := AttrList ["m-code"] ]}
                [Tag 8 "span" {[ "class" := AttrList [class_] ]} [NavigableString 9 "int"]]]].


(** ** Modifier badges *)

Section BadgeFacts.
Import Dom ModifiersFix2.

(** No node of the tree has the identity [j]. *)
Definition absent (j : node_id) (n : node) : Prop :=
  forall c, In c (nodes n) -> ident c <> j.

Lemma absent_child j i nm a cs c : absent j (Tag i nm a cs) -> In c cs -> absent j c.
Proof.
  intros Hf Hin x Hx. apply Hf. right. simpl. apply in_flat_map. exists c. split; [exact Hin|].
  exact Hx.
Qed.

Lemma absent_self j n : absent j n -> has_id j n = false.
Proof.
  intros Hf. unfold has_id. apply Nat.eqb_neq. apply Hf. left. reflexivity.
Qed.

Lemma max_id_ge (n : node) : forall c, In c (nodes n) -> (ident c <= max_id n)%nat.
Proof.
  induction n as [i s|i nm a cs IH] using node_ind'; intros c Hc.
  - destruct Hc as [<-|[]]. simpl. lia.
  - assert (Hfold : forall l, (i <= foldr (fun c m => Nat.max (max_id c) m) i l)%nat
                     /\ forall x, In x l -> (max_id x <= foldr (fun c m => Nat.max (max_id c) m) i l)%nat).
    { induction l as [|y l IHl]; simpl; [split; [lia|intros x []]|].
      destruct IHl as [H1 H2]. split; [lia|]. intros x [<-|Hx]; [lia|]. specialize (H2 x Hx). lia. }
    destruct Hc as [<-|Hc]; [simpl; apply Hfold|].
    simpl in Hc. apply in_flat_map in Hc as (x & Hx & Hc).
    rewrite List.Forall_forall in IH. specialize (IH x Hx c Hc).
    simpl. destruct (Hfold cs) as [_ H2]. specialize (H2 x Hx). lia.
Qed.

Lemma max_id_absent (n : node) (j : node_id) : (max_id n < j)%nat -> absent j n.
Proof. intros Hlt c Hc. pose proof (max_id_ge n c Hc). lia. Qed.

Lemma ident_splice f n : ident (splice f n) = ident n.
Proof. destruct n; reflexivity. Qed.

(** A splice at an identity that the tree does not hold changes nothing. *)
Lemma splice_absent j g n : absent j n -> splice (at_id j g) n = n.
Proof.
  induction n as [i s|i nm a cs IH] using node_ind'; intros Hf; [reflexivity|].
  simpl. f_equal. rewrite List.Forall_forall in IH.
  assert (Hcs : forall c, In c cs -> absent j c) by (intros c Hc; eapply absent_child; eauto).
  clear Hf. induction cs as [|c cs IHcs]; [reflexivity|]. simpl.
  assert (Hc : absent j c) by (apply Hcs; left; reflexivity).
  unfold at_id at 1. rewrite (absent_self j c Hc).
  rewrite (IH c (or_introl eq_refl) Hc). simpl. f_equal.
  apply IHcs; intros; [apply IH|apply Hcs]; try right; assumption.
Qed.

(** What a splice at [j] makes of a list of nodes. *)
Definition spliced (j : node_id) (g : node -> list node) (l : list node) : list node :=
  flat_map (fun x => match at_id j g x with
                     | Some r => r
                     | None => [splice (at_id j g) x]
                     end) l.

Lemma spliced_absent j g l : Forall (absent j) l -> spliced j g l = l.
Proof.
  induction 1 as [|x l Hx _ IH]; [reflexivity|]. unfold spliced in *. simpl.
  unfold at_id at 1. rewrite (absent_self j x Hx), (splice_absent j g x Hx), IH. reflexivity.
Qed.

Lemma spliced_app j g l1 l2 : spliced j g (l1 ++ l2) = (spliced j g l1 ++ spliced j g l2)%list.
Proof. unfold spliced. apply flat_map_app. Qed.

Lemma spliced_hit j g x l :
  has_id j x = true -> spliced j g (x :: l) = (g x ++ spliced j g l)%list.
Proof. intros H. unfold spliced. simpl. unfold at_id at 1. rewrite H. reflexivity. Qed.

Lemma spliced_miss j g x l :
  absent j x -> spliced j g (x :: l) = x :: spliced j g l.
Proof.
  intros H. unfold spliced. simpl. unfold at_id at 1.
  rewrite (absent_self j x H), (splice_absent j g x H). reflexivity.
Qed.

Lemma splice_congr i (L1 L2 : node -> list node) n :
  (forall c, In c (descendants n) -> L1 c = L2 c) ->
  splice (at_id i L1) n = splice (at_id i L2) n.
Proof.
  induction n as [k s|k nm a cs IH] using node_ind'; intros Heq; [reflexivity|].
  simpl. f_equal. rewrite List.Forall_forall in IH.
  assert (Hcs : forall c, In c cs -> L1 c = L2 c /\ splice (at_id i L1) c = splice (at_id i L2) c).
  { intros c Hc. split.
    - apply Heq. simpl. apply in_flat_map. exists c. split; [exact Hc|left; reflexivity].
    - apply IH; [exact Hc|]. intros x Hx. apply Heq. simpl. apply in_flat_map.
      exists c. split; [exact Hc|right; exact Hx]. }
  clear Heq IH. induction cs as [|c cs IHcs]; [reflexivity|]. simpl.
  destruct (Hcs c (or_introl eq_refl)) as [HL Hs]. unfold at_id at 1 3.
  rewrite HL, Hs. f_equal. apply IHcs. intros x Hx. apply Hcs. right. exact Hx.
Qed.

(** A splice at a absent identity [j] after a splice at [i] is a splice
    at [i] of the lists as the second splice leaves them. *)
Lemma splice_splice i (L : node -> list node) j g n :
  absent j n ->
  splice (at_id j g) (splice (at_id i L) n) = splice (at_id i (fun c => spliced j g (L c))) n.
Proof.
  induction n as [k s|k nm a cs IH] using node_ind'; intros Hf; [reflexivity|].
  simpl. f_equal. rewrite List.Forall_forall in IH.
  assert (Hcs : forall c, In c cs -> absent j c) by (intros c Hc; eapply absent_child; eauto).
  clear Hf. induction cs as [|c cs IHcs]; [reflexivity|]. simpl.
  rewrite flat_map_app.
  f_equal; [|apply IHcs; intros; [apply IH|apply Hcs]; try right; assumption].
  assert (Hat : forall L0, at_id i L0 c = if has_id i c then Some (L0 c) else None)
    by reflexivity.
  rewrite !Hat. destruct (has_id i c) eqn:Hi.
  - reflexivity.
  - simpl. unfold at_id at 1. unfold has_id at 1. rewrite ident_splice.
    assert (Hc : absent j c) by (apply Hcs; left; reflexivity).
    fold (has_id j c). rewrite (absent_self j c Hc).
    rewrite (IH c (or_introl eq_refl) Hc). rewrite app_nil_r. reflexivity.
Qed.

Lemma update_congr e (h1 h2 : node -> node) n :
  (forall c, In c (nodes n) -> h1 c = h2 c) -> update e h1 n = update e h2 n.
Proof.
  induction n as [k s|k nm a cs IH] using node_ind'; intros Heq.
  - simpl. rewrite (Heq _ (or_introl eq_refl)). reflexivity.
  - simpl. rewrite (Heq _ (or_introl eq_refl)). destruct (has_id e (Tag k nm a cs)); [reflexivity|].
    f_equal. rewrite List.Forall_forall in IH. apply map_ext_in. intros c Hc. apply IH; [exact Hc|].
    intros x Hx. apply Heq. right. simpl. apply in_flat_map. exists c. split; [exact Hc|exact Hx].
Qed.

(** A splice at a absent identity after an update that keeps the
    identities is the update followed by the splice on the spot. *)
Lemma splice_update e (h : node -> node) j g n :
  absent j n -> (forall c, ident (h c) = ident c) ->
  splice (at_id j g) (update e h n) = update e (fun c => splice (at_id j g) (h c)) n.
Proof.
  intros Hf Hh. induction n as [k s|k nm a cs IH] using node_ind'.
  - simpl. destruct (has_id e (NavigableString k s)); reflexivity.
  - simpl. destruct (has_id e (Tag k nm a cs)); [reflexivity|]. simpl. f_equal.
    rewrite List.Forall_forall in IH.
    assert (Hcs : forall c, In c cs -> absent j c) by (intros c Hc; eapply absent_child; eauto).
    clear Hf. induction cs as [|c cs IHcs]; [reflexivity|]. simpl.
    unfold at_id at 1. unfold has_id at 1.
    assert (Hid : ident (update e h c) = ident c).
    { destruct c as [k' s'|k' nm' a' cs']; simpl.
      - destruct (has_id e (NavigableString k' s')); [apply Hh|reflexivity].
      - destruct (has_id e (Tag k' nm' a' cs')); [apply Hh|reflexivity]. }
    assert (Hc : absent j c) by (apply Hcs; left; reflexivity).
    rewrite Hid. fold (has_id j c). rewrite (absent_self j c Hc).
    simpl. f_equal; [apply IH; [left; reflexivity|exact Hc]|].
    apply IHcs; intros; [apply IH|apply Hcs]; try right; assumption.
Qed.


(** *** The badges *)

Definition class_of (m : string) : string :=
  match modifier_class m with Ok c => c | Raise _ => EmptyString end.

(** The badge of a modifier with the blank behind it, the identities
    being handed out from [k] on. *)
Definition badge (k : node_id) (m : string) : list node :=
  [Tag k "span" (<["class" := AttrStr ("dox-injected m-label " ++ class_of m)]> ∅)
     [NavigableString (S k) m];
   NavigableString (S (S k)) " "].

(** The badges of the modifiers in [newest_first], the one inserted
    last in front; the first one inserted got the identities from [k]
    on. *)
Fixpoint stack (k : node_id) (newest_first : list string) : list node :=
  match newest_first with
  | [] => []
  | m :: older => (badge (k + 3 * length older) m ++ stack k older)%list
  end.

(** The text of a badge that the fixer inserted. *)
Definition badge_text (n : node) : option string :=
  match n with
  | Tag _ nm a [NavigableString _ m] =>
      match a !! "class" with
      | Some (AttrStr s) =>
          if (String.eqb nm "span" && String.prefix "dox-injected m-label " s)%bool
          then Some m else None
      | _ => None
      end
  | _ => None
  end.

Lemma prefix_append (p s : string) : String.prefix p (p ++ s) = true.
Proof.
  induction p as [|c p IH]; simpl; [destruct s; reflexivity|].
  destruct (ascii_dec c c); [exact IH|contradiction].
Qed.

Lemma badge_texts (k : node_id) (m : string) : omap badge_text (badge k m) = [m].
Proof.
  unfold badge. cbn [omap list_omap]. unfold badge_text.
  rewrite lookup_insert_eq, prefix_append. reflexivity.
Qed.

Lemma stack_texts (k : node_id) (l : list string) : omap badge_text (stack k l) = l.
Proof.
  induction l as [|m l IH]; [reflexivity|].
  cbn [stack]. rewrite omap_app, badge_texts, IH. reflexivity.
Qed.

Lemma stack_ids (k : node_id) (l : list string) :
  Forall (fun x => forall c, In c (nodes x) -> (k <= ident c < k + 3 * length l)%nat) (stack k l).
Proof.
  induction l as [|m l IH]; [constructor|].
  cbn [stack badge app]. constructor; [|constructor].
  - intros c [<-|[<-|[]]]; simpl; lia.
  - intros c [<-|[]]; simpl; lia.
  - eapply Forall_impl; [exact IH|]. intros x Hx c Hc. specialize (Hx c Hc). simpl. lia.
Qed.

Lemma stack_absent (k : node_id) (l : list string) (j : node_id) :
  (k + 3 * length l <= j)%nat -> Forall (absent j) (stack k l).
Proof.
  intros Hj. eapply Forall_impl; [apply stack_ids|].
  intros x Hx c Hc. specialize (Hx c Hc). simpl in Hx. lia.
Qed.

Section Placement.

(** Where the badges go: [place l] is the tree with the list [l] put
    there.  A splice at an identity handed out later only sees [l]. *)
Variable place : list node -> node.
Variable k0 : node_id.
Hypothesis place_splice : forall j g l,
  (k0 <= j)%nat -> splice (at_id j g) (place l) = place (spliced j g l).

Variable end_ : node_id.

Lemma insert_badge_next (doc : HTMLDocument) (m : string) (older : list string)
    (m' : string) :
  modifier_class m = Ok (class_of m) ->
  next_id doc = (k0 + 3 * length (m' :: older))%nat ->
  body doc = place (stack k0 (m' :: older)) ->
  insert_badge end_ (Ok (doc, Some (k0 + 3 * length older)%nat)) m
  = Ok (with_next_id (with_body doc (place (stack k0 (m :: m' :: older))))
          (k0 + 3 * length (m :: m' :: older))%nat,
        Some (k0 + 3 * length (m' :: older))%nat).
Proof.
  intros Hclass Hnext Hbody. unfold insert_badge. cbn [mbind result_bind rbind].
  rewrite Hclass. cbn [mbind result_bind rbind]. unfold make_tag. rewrite Hnext.
  cbn [body with_next_id with_body next_id ident doc_path article_content
         table_of_contents sections].
  rewrite Hbody. unfold insert_before, insert_after.
  rewrite place_splice by lia. rewrite place_splice by lia.
  set (j := (k0 + 3 * length older)%nat). set (i := (k0 + 3 * length (m' :: older))%nat).
  assert (Hstack : spliced i (fun c => [c; NavigableString (S (S i)) " "])
                     (spliced j (fun c =>
                        [Tag i "span"
                           (<["class" := AttrStr ("dox-injected m-label " ++ class_of m)]> ∅)
                           [NavigableString (S i) m]; c])
                        (stack k0 (m' :: older)))
                   = stack k0 (m :: m' :: older)).
  { assert (Hi : Forall (absent i) (stack k0 (m' :: older)))
      by (apply stack_absent; unfold i; lia).
    change (stack k0 (m :: m' :: older)) with (badge i m ++ stack k0 (m' :: older))%list.
    revert Hi. cbn [stack]. fold j. unfold badge at 1 2. cbn [app]. intros Hi.
    rewrite spliced_hit by (unfold has_id; cbn [ident]; apply Nat.eqb_refl).
    rewrite spliced_miss by (intros c [<-|[]]; simpl; lia).
    rewrite (spliced_absent j _ (stack k0 older)) by (apply stack_absent; unfold j; lia).
    cbn [app].
    rewrite spliced_hit by (unfold has_id; cbn [ident]; apply Nat.eqb_refl).
    rewrite (spliced_absent i _ _ Hi). unfold badge. reflexivity. }
  rewrite Hstack. unfold with_next_id, with_body.
  cbn [body next_id doc_path article_content table_of_contents sections].
  do 3 f_equal. unfold i. simpl. lia.
Qed.

Lemma insert_badge_first (doc : HTMLDocument) (lastInserted : option node_id) (m : string) :
  modifier_class m = Ok (class_of m) ->
  next_id doc = k0 ->
  (forall tag, match lastInserted with
               | Some before => insert_before before tag (body doc)
               | None => append end_ tag (body doc)
               end = place [tag]) ->
  insert_badge end_ (Ok (doc, lastInserted)) m
  = Ok (with_next_id (with_body doc (place (stack k0 [m]))) (k0 + 3 * length [m])%nat,
        Some (k0 + 3 * length (@nil string))%nat).
Proof.
  intros Hclass Hnext Hfirst. unfold insert_badge. cbn [mbind result_bind rbind].
  rewrite Hclass. cbn [mbind result_bind rbind]. unfold make_tag. rewrite Hnext.
  cbn [body with_next_id with_body next_id ident doc_path article_content
         table_of_contents sections].
  rewrite Hfirst. unfold insert_after. rewrite place_splice by lia.
  rewrite spliced_hit by (unfold has_id; cbn [ident]; apply Nat.eqb_refl).
  cbn [stack length app]. rewrite Nat.mul_0_r, Nat.add_0_r. unfold badge, spliced.
  cbn [flat_map app]. unfold with_next_id, with_body.
  cbn [body next_id doc_path article_content table_of_contents sections length].
  replace (k0 + 3 * 1)%nat with (S (S (S k0))) by lia.
  replace (k0 + 3 * 0)%nat with k0 by lia. reflexivity.
Qed.

Lemma insert_badges_later (ms : list string) : forall (older : list string) (m' : string)
    (doc : HTMLDocument),
  Forall (fun m => modifier_class m = Ok (class_of m)) ms ->
  foldl (insert_badge end_)
        (Ok (with_next_id (with_body doc (place (stack k0 (m' :: older))))
               (k0 + 3 * length (m' :: older))%nat,
             Some (k0 + 3 * length older)%nat)) ms
  = Ok (with_next_id (with_body doc (place (stack k0 (rev ms ++ m' :: older))))
          (k0 + 3 * length (rev ms ++ m' :: older))%nat,
        Some (k0 + 3 * (length (rev ms ++ m' :: older) - 1))%nat).
Proof.
  induction ms as [|m ms IH]; intros older m' doc Hvalid.
  - cbn [foldl rev app]. do 3 f_equal. simpl. lia.
  - inversion Hvalid as [|? ? Hm Hms]; subst. cbn [foldl].
    rewrite (insert_badge_next _ m older m' Hm) by reflexivity.
    change (with_next_id
              (with_body (with_next_id (with_body doc (place (stack k0 (m' :: older))))
                            (k0 + 3 * length (m' :: older))%nat)
                 (place (stack k0 (m :: m' :: older))))
              (k0 + 3 * length (m :: m' :: older))%nat)
      with (with_next_id (with_body doc (place (stack k0 (m :: m' :: older))))
              (k0 + 3 * length (m :: m' :: older))%nat).
    rewrite (IH (m' :: older) m doc Hms). cbn [rev]. rewrite <- app_assoc. reflexivity.
Qed.

End Placement.

Lemma nodes_trans (root c x : node) : In c (nodes root) -> In x (nodes c) -> In x (nodes root).
Proof.
  induction root as [k s|k nm a cs IH] using node_ind'; intros Hc Hx.
  - destruct Hc as [<-|[]]. exact Hx.
  - destruct Hc as [<-|Hc]; [exact Hx|]. right. simpl in *.
    apply in_flat_map in Hc as (y & Hy & Hc). apply in_flat_map. exists y. split; [exact Hy|].
    rewrite List.Forall_forall in IH. apply (IH y Hy); assumption.
Qed.

Lemma absent_node j root c : absent j root -> In c (nodes root) -> absent j c.
Proof. intros Hf Hc x Hx. apply Hf. eapply nodes_trans; eassumption. Qed.

(** In front of the node [i0]. *)
Lemma place_before (root0 : node) (k0 i0 : node_id) :
  (max_id root0 < k0)%nat ->
  forall j g l, (k0 <= j)%nat ->
    splice (at_id j g) (splice (at_id i0 (fun c => l ++ [c])%list) root0)
    = splice (at_id i0 (fun c => spliced j g l ++ [c])%list) root0.
Proof.
  intros Hmax j g l Hj.
  assert (Hf : absent j root0) by (apply max_id_absent; lia).
  rewrite splice_splice by exact Hf. apply splice_congr. intros c Hc.
  rewrite spliced_app. f_equal. rewrite spliced_miss; [reflexivity|].
  apply (absent_node j root0); [exact Hf|right; exact Hc].
Qed.

(** At the end of the node [end_]. *)
Lemma place_at_end (root0 : node) (k0 end_ : node_id) :
  (max_id root0 < k0)%nat ->
  forall j g l, (k0 <= j)%nat ->
    splice (at_id j g) (update end_ (fun n => set_contents (contents n ++ l) n) root0)
    = update end_ (fun n => set_contents (contents n ++ spliced j g l) n) root0.
Proof.
  intros Hmax j g l Hj.
  assert (Hf : absent j root0) by (apply max_id_absent; lia).
  rewrite splice_update; [|exact Hf|intros [k s|k nm a cs]; reflexivity].
  apply update_congr. intros [k s|k nm a cs] Hc; [reflexivity|].
  cbn [contents set_contents splice]. f_equal.
  change (flat_map _ (cs ++ l)) with (spliced j g (cs ++ l)).
  rewrite spliced_app. f_equal. apply spliced_absent. apply List.Forall_forall.
  intros x Hx. apply (absent_node j root0); [exact Hf|].
  eapply nodes_trans; [exact Hc|]. right. simpl. apply in_flat_map. exists x.
  split; [exact Hx|left; reflexivity].
Qed.

(** Every modifier that the expression takes out has its class. *)
Lemma modifier_here_class (s m : string) :
  modifier_here s = Some m -> modifier_class m = Ok (class_of m).
Proof.
  unfold modifier_here, _modifierClasses. cbn [List.find fst].
  repeat (destruct (String.prefix _ s); [intros [= <-]; reflexivity|]).
  discriminate.
Qed.

Lemma match_here_class (s m : string) (n : nat) :
  match_here s = Some (m, n) -> modifier_class m = Ok (class_of m).
Proof.
  unfold match_here. destruct (span_space s); [discriminate|].
  destruct (modifier_here _) as [m0|] eqn:Hm; [|discriminate].
  destruct (span_space _); [discriminate|]. intros [= <- _].
  eapply modifier_here_class, Hm.
Qed.

Lemma expression_sub_class (s : string) : forall skip,
  Forall (fun m => modifier_class m = Ok (class_of m)) (expression_sub skip s).2.
Proof.
  induction s as [|c s IH]; intros skip; [constructor|].
  simpl. destruct skip as [|skip]; [|apply IH].
  destruct (match_here (String c s)) as [[m n]|] eqn:Hm.
  - specialize (IH (pred n)). destruct (expression_sub (pred n) s) as [out ms]. simpl.
    constructor; [eapply match_here_class, Hm|exact IH].
  - specialize (IH 0%nat). destruct (expression_sub 0 s) as [out ms]. exact IH.
Qed.


End BadgeFacts.

Import Dom ModifiersFix2.

(** The end of a signature: the parameters, and no badge so far. *)
Definition signature_doc : HTMLDocument :=
  {| doc_path := "html/a.html";
     body := page_of
       [Tag 6 "h3" ∅
          [Tag 7 "span" {[ "class" := AttrList ["m-doc-wrap-bumper"] ]}
             [NavigableString 8 "static constexpr int __cdecl f("];
           Tag 9 "span" {[ "class" := AttrList ["m-doc-wrap"] ]}
             [Tag 10 "span" {[ "class" := AttrList ["m-doc-wrap"] ]}
                [NavigableString 11 "int a)"]]]];
     next_id := 12; article_content := 5; table_of_contents := None; sections := [] |}.

Definition signature_text : string := "static constexpr int __cdecl f(".

(** C8 as it is stated: the badges stand in the order of the modifiers. *)
Definition badge_order_as_stated : Prop :=
  forall (doc : HTMLDocument) (end_ : node_id) (e : node) (text : string),
    (max_id (body doc) < next_id doc)%nat ->
    lookup end_ (body doc) = Some e ->
    is_string e = false ->
    omap badge_text (descendants (body doc)) = [] ->
    match insert_badges doc end_ (expression_sub 0 text).2 with
    | Ok doc' => omap badge_text (descendants (body doc')) = (expression_sub 0 text).2
    | Raise _ => True
    end.


